(** * Duplicate URL-slug finder: the detection and search core

    A shallow embedding of [src/services/search.ts], [src/services/api.ts]
    and the parts of [src/config/index.ts] they call, followed by the
    properties of the slug index, the duplicate classifier, the result
    grouper and the multi-strategy search merger. *)

From Stdlib Require Import List String Ascii Bool Arith Lia Permutation NArith.
Import ListNotations.
Local Open Scope string_scope.
Local Open Scope list_scope.

(** ** The JavaScript operations the source relies on *)

Module JS.

(** Truthiness of a string: only the empty string is falsy. *)
Definition truthy (s : string) : bool :=
  match s with EmptyString => false | String _ _ => true end.

(** Truthiness of [e?.value]: [undefined] ([None]) is falsy. *)
Definition truthyOpt (v : option string) : bool :=
  match v with Some s => truthy s | None => false end.

(** [a || b] on two possibly undefined strings. *)
Definition orOpt (a b : option string) : option string :=
  if truthyOpt a then a else b.

(** [a || "literal"] for a possibly undefined string [a]. *)
Definition orElse (a : option string) (d : string) : string :=
  match a with
  | Some s => if truthy s then s else d
  | None => d
  end.

(** [a || "literal"] for a string [a]. *)
Definition orDefault (a d : string) : string := if truthy a then a else d.

(** [Array.prototype.findIndex]; [None] stands for the result [-1]. *)
Fixpoint findIndexFrom {T} (i : nat) (p : T -> bool) (l : list T) : option nat :=
  match l with
  | [] => None
  | x :: r => if p x then Some i else findIndexFrom (S i) p r
  end.

Definition findIndex {T} (p : T -> bool) (l : list T) : option nat :=
  findIndexFrom 0 p l.

(** [Array.prototype.filter] with the callback receiving (item, index). *)
Fixpoint filterFrom {T} (i : nat) (p : T -> nat -> bool) (l : list T) : list T :=
  match l with
  | [] => []
  | x :: r => if p x i then x :: filterFrom (S i) p r else filterFrom (S i) p r
  end.

Definition filterIndexed {T} (p : T -> nat -> bool) (l : list T) : list T :=
  filterFrom 0 p l.

(** [index === self.findIndex(...)] *)
Definition isIndex (i : nat) (r : option nat) : bool :=
  match r with Some j => Nat.eqb i j | None => false end.

(** [Array.prototype.join]. *)
Definition join (sep : string) (l : list string) : string := String.concat sep l.

(** [new Set(array)]: the distinct values, in order of first insertion. *)
Definition setAdd (s : list string) (x : string) : list string :=
  if existsb (String.eqb x) s then s else s ++ [x].

Definition newSet (l : list string) : list string := fold_left setAdd l [].

(** *** Insertion-ordered string-keyed stores

    A [Map<string, V>] and the own properties of an ordinary object are
    both kept as association lists in creation order, keys unique. *)

Definition Store (V : Type) := list (string * V).

Fixpoint get {V} (k : string) (m : Store V) : option V :=
  match m with
  | [] => None
  | (k', v) :: r => if String.eqb k k' then Some v else get k r
  end.

Definition has {V} (k : string) (m : Store V) : bool :=
  match get k m with Some _ => true | None => false end.

(** Writing an existing key keeps its position; a new key goes last. *)
Fixpoint set {V} (k : string) (v : V) (m : Store V) : Store V :=
  match m with
  | [] => [(k, v)]
  | (k', v') :: r =>
      if String.eqb k k' then (k, v) :: r else (k', v') :: set k v r
  end.

(** *** Ordinary objects used as dictionaries

    An object literal [{}] inherits from [Object.prototype]; reading
    [acc[k]] for a key that is not an own property walks the prototype
    chain and finds these property names. *)
Definition objectPrototypeKeys : list string :=
  [ "constructor"; "__defineGetter__"; "__defineSetter__"; "hasOwnProperty";
    "__lookupGetter__"; "__lookupSetter__"; "isPrototypeOf";
    "propertyIsEnumerable"; "toString"; "valueOf"; "__proto__";
    "toLocaleString" ].

Definition isInherited (k : string) : bool :=
  existsb (String.eqb k) objectPrototypeKeys.

(** What [acc[k]] evaluates to: an own array, an inherited member of
    [Object.prototype] (a function or the prototype object itself, both
    truthy and without a [push] method), or [undefined]. *)
Inductive Property (V : Type) :=
| Own (v : V)
| InheritedMember
| Undefined.
Arguments Own {V} v.
Arguments InheritedMember {V}.
Arguments Undefined {V}.

Definition objGet {V} (o : Store V) (k : string) : Property V :=
  match get k o with
  | Some v => Own v
  | None => if isInherited k then InheritedMember else Undefined
  end.

(** A property key is an array index when it is the canonical decimal
    form of an integer in [0, 2^32 - 2]. *)
Definition digit (a : ascii) : option N :=
  let n := N_of_ascii a in
  if ((48 <=? n) && (n <=? 57))%N then Some (n - 48)%N else None.

Fixpoint digits (acc : N) (s : string) : option N :=
  match s with
  | EmptyString => Some acc
  | String a r =>
      match digit a with
      | Some d => digits (10 * acc + d)%N r
      | None => None
      end
  end.

Definition arrayIndex (s : string) : option N :=
  match s with
  | EmptyString => None
  | String a r =>
      if Ascii.eqb a "0"%char
      then match r with EmptyString => Some 0%N | _ => None end
      else match digits 0 s with
           | Some n => if (n <? 4294967295)%N then Some n else None
           | None => None
           end
  end.

Fixpoint insertByIndex {V} (e : N * (string * V)) (l : list (N * (string * V)))
  : list (N * (string * V)) :=
  match l with
  | [] => [e]
  | e' :: r => if (fst e <=? fst e')%N then e :: l else e' :: insertByIndex e r
  end.

Definition sortByIndex {V} (l : list (N * (string * V))) : list (N * (string * V)) :=
  fold_right insertByIndex [] l.

Definition indexed {V} (o : Store V) : list (N * (string * V)) :=
  flat_map (fun e => match arrayIndex (fst e) with
                     | Some n => [(n, e)]
                     | None => []
                     end) o.

Definition named {V} (o : Store V) : Store V :=
  filter (fun e => match arrayIndex (fst e) with
                   | Some _ => false
                   | None => true
                   end) o.

(** [Object.entries]: array-index keys in ascending numeric order, then
    the other string keys in creation order. *)
Definition objectEntries {V} (o : Store V) : list (string * V) :=
  map snd (sortByIndex (indexed o)) ++ named o.

End JS.

(** ** Outcomes of evaluation: a value, or a thrown error with its message *)

Inductive Outcome (A : Type) :=
| Returned (a : A)
| Thrown (message : string).
Arguments Returned {A} a.
Arguments Thrown {A} message.

Definition obind {A B} (o : Outcome A) (f : A -> Outcome B) : Outcome B :=
  match o with
  | Returned a => f a
  | Thrown e => Thrown e
  end.

(** [Array.prototype.map] with a callback that may throw: elements are
    visited in order and the first throw aborts the whole map. *)
Fixpoint mapThrowing {A B} (f : A -> Outcome B) (l : list A) : Outcome (list B) :=
  match l with
  | [] => Returned []
  | x :: r => obind (f x) (fun y => obind (mapThrowing f r) (fun ys => Returned (y :: ys)))
  end.

(** [Array.prototype.reduce] with a callback that may throw. *)
Fixpoint reduceThrowing {A B} (f : B -> A -> Outcome B) (l : list A) (acc : B) : Outcome B :=
  match l with
  | [] => Returned acc
  | x :: r => obind (f acc x) (reduceThrowing f r)
  end.

(** ** Data model *)

(** [item.system] of a delivered content item. *)
Record SystemAttributes := {
  sys_name : string;
  sys_codename : string;
  sys_type : string;
  sys_language : string }.

(** [item.elements] of a [PageItem]: the [value] of each optional slug
    element, [None] when the element is missing. *)
Record PageElements := {
  url_slug : option string;
  slug : option string }.

Record PageItem := {
  system : SystemAttributes;
  elements : PageElements }.

(** The literal union ["url_slug" | "slug"]. *)
Inductive SlugField := url_slug_field | slug_field.

Definition slugFieldName (f : SlugField) : string :=
  match f with url_slug_field => "url_slug" | slug_field => "slug" end.

(** [ContentItem], as [formatSDKItem] builds it. *)
Record ContentItem := {
  ci_name : string;
  ci_codename : string;
  ci_type : string;
  ci_language : string;
  ci_slug : string;
  ci_slugField : SlugField }.

(** The object shape [{name, codename, language, slugField}] shared by the
    entries of the slug map and by the rows [groupItemsByCodename] returns
    (where [language] is the joined list of language tags). *)
Record SlugItem := {
  name : string;
  codename : string;
  language : string;
  slugField : SlugField }.

Record DuplicateGroup := {
  dg_slug : string;
  dg_items : list SlugItem }.

Record DuplicateResult := {
  duplicates : list DuplicateGroup;
  dr_totalItems : option nat;
  uniqueSlugs : option nat;
  dr_error : option string }.

(** [ApiResult] as the strategies fill it.  The [similarSlugs] diagnostic of
    the all-items strategy is display-only and is left out. *)
Record ApiResult := {
  success : bool;
  items : list ContentItem;
  error : option string;
  method : string;
  totalItems : option nat;
  exactMatches : option nat;
  allSlugsCount : option nat;
  note : option string }.

(** The result of [searchSpecificSlug]: an [ApiResult] that may carry the raw
    per-strategy results ([managementApi] is [null] when not run). *)
Record SearchResult := {
  merged : ApiResult;
  deliveryApi : option ApiResult;
  deliveryApiAllItems : option ApiResult;
  managementApi : option ApiResult }.

Record AppConfig := {
  projectId : string;
  environmentId : string;
  deliveryApiKey : string;
  managementApiKey : string;
  languages : list string;
  defaultLanguage : string }.

(** ** Queries sent through the delivery client, and asynchronous code *)

Inductive Query :=
| ItemsEquals (field target lang : string)
    (** [.items().type('page').equalsFilter(field, target).languageParameter(lang)] *)
| ItemsAll (lang : string) (elementCodenames : list string)
    (** [.items().type('page').languageParameter(lang).elementsParameter(...)] *).

(** The collaborator: what the request issued after [n] earlier ones resolves
    to, either all matching items (pagination is the client's business) or a
    rejection with its message.  Building the client is taken to succeed. *)
Definition Client := nat -> Query -> Outcome (list PageItem).

(** An [async] body: it starts from the requests issued so far, and ends
    with the requests issued and a value or a thrown error. *)
Definition Async (A : Type) := list Query -> list Query * Outcome A.

Definition ret {A} (a : A) : Async A := fun log => (log, Returned a).

Definition bind {A B} (m : Async A) (f : A -> Async B) : Async B :=
  fun log =>
    match m log with
    | (log', Returned a) => f a log'
    | (log', Thrown e) => (log', Thrown e)
    end.

Definition liftOutcome {A} (o : Outcome A) : Async A := fun log => (log, o).

(** [try { body } catch (err) { handler }] *)
Definition tryCatch {A} (body : Async A) (handler : string -> Async A) : Async A :=
  fun log =>
    match body log with
    | (log', Returned a) => (log', Returned a)
    | (log', Thrown e) => handler e log'
    end.

(** [await query.toAllPromise()] *)
Definition toAllPromise (client : Client) (q : Query) : Async (list PageItem) :=
  fun log => (log ++ [q], client (List.length log) q).

(** [for (const x of xs) { acc = body(x, acc) }] with an awaiting body. *)
Fixpoint forOf {A S} (xs : list A) (body : A -> S -> Async S) (acc : S) : Async S :=
  match xs with
  | [] => ret acc
  | x :: r => bind (body x acc) (forOf r body)
  end.

Declare Scope async_scope.
Delimit Scope async_scope with async.
Notation "x <- m ;; k" := (bind m (fun x => k))
  (at level 61, m at next level, right associativity) : async_scope.

(** ** Configuration ([src/config/index.ts]) *)

Module Config.

(** [Boolean(appConfig.projectId)]: the version of the configuration module
    that [search.ts] and [api.ts] are written against (both build the client
    from [appConfig.projectId]). *)
Definition isConfigValid (appConfig : AppConfig) : bool :=
  JS.truthy (projectId appConfig).

Definition getConfiguredLanguages (appConfig : AppConfig) : list string :=
  if Nat.ltb 0 (List.length (languages appConfig))
  then languages appConfig
  else [JS.orDefault (defaultLanguage appConfig) "en"].

End Config.

(** ** The lookup strategies ([src/services/api.ts]) *)

Module Api.

Definition LANGUAGE_CODES : list string := ["de"; "en"; "zh"].

(** [item.elements.url_slug?.value || item.elements.slug?.value] *)
Definition slugValueOf (item : PageItem) : option string :=
  JS.orOpt (url_slug (elements item)) (slug (elements item)).

(** [item.elements.url_slug?.value ? "url_slug" : "slug"] *)
Definition slugFieldOf (item : PageItem) : SlugField :=
  if JS.truthyOpt (url_slug (elements item)) then url_slug_field else slug_field.

Definition formatSDKItem (item : PageItem) (language : string) : ContentItem :=
  {| ci_name := JS.orDefault (sys_name (system item)) "Unknown";
     ci_codename := JS.orDefault (sys_codename (system item)) "Unknown";
     ci_type := JS.orDefault (sys_type (system item)) "page";
     ci_language := language;
     ci_slug := JS.orElse (slugValueOf item) "No slug";
     ci_slugField := slugFieldOf item |}.

(** [removeDuplicateItems], written once for both copies of the source (the
    one in [api.ts] on [ContentItem], the generic one in [search.ts]). *)
Definition sameKey {T} (codenameOf languageOf : T -> string) (item i : T) : bool :=
  String.eqb (codenameOf i) (codenameOf item) && String.eqb (languageOf i) (languageOf item).

Definition removeDuplicateItems {T} (codenameOf languageOf : T -> string) (items : list T)
  : list T :=
  JS.filterIndexed
    (fun item index => JS.isIndex index (JS.findIndex (sameKey codenameOf languageOf item) items))
    items.

Definition createErrorResult (message method : string) : ApiResult :=
  {| success := false; items := []; error := Some message; method := method;
     totalItems := None; exactMatches := None; allSlugsCount := None; note := None |}.

Section WithClient.

Variable appConfig : AppConfig.
Variable client : Client.

Local Open Scope async_scope.

(** One guarded lookup of [searchWithDeliveryApi]: the found items are pushed
    onto [allItems]; a rejected request is logged and leaves it unchanged. *)
Definition lookupByField (field targetSlug lang : string) (allItems : list ContentItem)
  : Async (list ContentItem) :=
  tryCatch
    (response <- toAllPromise client (ItemsEquals field targetSlug lang) ;;
     ret (allItems ++ map (fun item => formatSDKItem item lang) response))
    (fun _ => ret allItems).

Definition searchWithDeliveryApi (targetSlug : string) : Async ApiResult :=
  if negb (Config.isConfigValid appConfig)
  then ret (createErrorResult "Missing Kontent.ai Project ID configuration." "delivery-sdk")
  else
    tryCatch
      (allItems <- forOf LANGUAGE_CODES
                     (fun lang allItems =>
                        allItems <- lookupByField "elements.url_slug" targetSlug lang allItems ;;
                        lookupByField "elements.slug" targetSlug lang allItems)
                     [] ;;
       let uniqueItems := removeDuplicateItems ci_codename ci_language allItems in
       ret {| success := true; items := uniqueItems; error := None;
              method := "delivery-sdk"; totalItems := Some (List.length uniqueItems);
              exactMatches := None; allSlugsCount := None; note := None |})
      (fun error => ret (createErrorResult error "delivery-sdk")).

Definition hasSlug (item : PageItem) : bool := JS.truthyOpt (slugValueOf item).

Definition searchAllItemsDeliveryApi (targetSlug : string) : Async ApiResult :=
  if negb (Config.isConfigValid appConfig)
  then ret (createErrorResult "Missing Kontent.ai Project ID configuration." "delivery-sdk-all")
  else
    tryCatch
      (allItems <- forOf LANGUAGE_CODES
                     (fun lang allItems =>
                        response <- toAllPromise client (ItemsAll lang ["url_slug"; "slug"]) ;;
                        ret (allItems ++ map (fun item => formatSDKItem item lang)
                                             (filter hasSlug response)))
                     [] ;;
       let allSlugs := JS.newSet (map ci_slug allItems) in
       let exact := filter (fun item => String.eqb (ci_slug item) targetSlug) allItems in
       ret {| success := true; items := exact; error := None;
              method := "delivery-sdk-all"; totalItems := Some (List.length allItems);
              exactMatches := Some (List.length exact);
              allSlugsCount := Some (List.length allSlugs); note := None |})
      (fun error => ret (createErrorResult error "delivery-sdk-all")).

(** The placeholder strategy: no request, no item. *)
Definition searchWithManagementApi (targetSlug : string) : Async ApiResult :=
  ret {| success := true; items := []; error := None; method := "management-api";
         totalItems := None; exactMatches := None; allSlugsCount := None;
         note := Some "Management API integration would require @kontent-ai/management-sdk for full implementation" |}.

End WithClient.

End Api.

(** ** Duplicate detection and slug search ([src/services/search.ts]) *)

Module Search.

Definition dquote : string := String (Ascii.ascii_of_nat 34) EmptyString.

Definition missingProjectId : string :=
  String.concat dquote
    ["Missing Kontent.ai Project ID configuration. Click "; "Show Config";
     " to verify settings."].

(** The entry [buildSlugMap] pushes for an item. *)
Definition slugItemOf (item : PageItem) : SlugItem :=
  {| name := JS.orDefault (sys_name (system item)) "Unknown";
     codename := JS.orDefault (sys_codename (system item)) "unknown";
     language := JS.orDefault (sys_language (system item)) "unknown";
     slugField := Api.slugFieldOf item |}.

(** The body of the loop of [buildSlugMap]; [continue] leaves the map as it is. *)
Definition buildSlugMapStep (slugMap : JS.Store (list SlugItem)) (item : PageItem)
  : JS.Store (list SlugItem) :=
  match Api.slugValueOf item with
  | None => slugMap
  | Some slug =>
      if negb (JS.truthy slug) then slugMap
      else
        let slugMap := if JS.has slug slugMap then slugMap else JS.set slug [] slugMap in
        match JS.get slug slugMap with
        | Some entries => JS.set slug (entries ++ [slugItemOf item]) slugMap
        | None => slugMap
        end
  end.

Definition buildSlugMap (items : list PageItem) : JS.Store (list SlugItem) :=
  fold_left buildSlugMapStep items [].

(** The message of the [TypeError] raised by calling a missing [push]
    method, and of the one raised by reading a property of [undefined]. *)
Definition pushIsNotAFunction : string := "acc[item.codename].push is not a function".

Definition readOfUndefined : string := "Cannot read properties of undefined".

(** The callback of the [reduce] in [groupItemsByCodename], on the object
    [acc] that starts as [{}]. *)
Definition groupStep (acc : JS.Store (list SlugItem)) (item : SlugItem)
  : Outcome (JS.Store (list SlugItem)) :=
  let acc :=
    match JS.objGet acc (codename item) with
    | JS.Undefined => JS.set (codename item) [] acc
    | _ => acc
    end in
  match JS.objGet acc (codename item) with
  | JS.Own languageItems => Returned (JS.set (codename item) (languageItems ++ [item]) acc)
  | JS.InheritedMember => Thrown pushIsNotAFunction
  | JS.Undefined => Thrown readOfUndefined
  end.

(** The callback of the [map] over [Object.entries(grouped)]. *)
Definition summarize (entry : string * list SlugItem) : Outcome SlugItem :=
  match snd entry with
  | first :: _ =>
      Returned {| name := name first;
                  codename := fst entry;
                  language := JS.join ", " (map language (snd entry));
                  slugField := slugField first |}
  | [] => Thrown readOfUndefined
  end.

Definition groupItemsByCodename (items : list SlugItem) : Outcome (list SlugItem) :=
  obind (reduceThrowing groupStep items [])
        (fun grouped => mapThrowing summarize (JS.objectEntries grouped)).

(** The callback of the [filter] in [findTrueDuplicates]. *)
Definition isTrueDuplicate (entry : string * list SlugItem) : bool :=
  Nat.ltb 1 (List.length (JS.newSet (map codename (snd entry)))).

Definition findTrueDuplicates (slugMap : JS.Store (list SlugItem))
  : Outcome (list DuplicateGroup) :=
  mapThrowing
    (fun entry =>
       obind (groupItemsByCodename (snd entry))
             (fun grouped => Returned {| dg_slug := fst entry; dg_items := grouped |}))
    (filter isTrueDuplicate slugMap).

Section WithClient.

Variable appConfig : AppConfig.
Variable client : Client.

Local Open Scope async_scope.

Definition fetchAllPageItemsWithSlugs (languages : option (list string))
  : Async (list PageItem) :=
  let languagesToSearch :=
    match languages with
    | Some l => l
    | None => Config.getConfiguredLanguages appConfig
    end in
  forOf languagesToSearch
    (fun lang allItems =>
       response <- toAllPromise client (ItemsAll lang ["url_slug"; "slug"]) ;;
       ret (allItems ++ filter Api.hasSlug response))
    [].

Definition findDuplicateSlugs (languages : option (list string)) : Async DuplicateResult :=
  if negb (Config.isConfigValid appConfig)
  then ret {| duplicates := []; dr_totalItems := None; uniqueSlugs := None;
              dr_error := Some missingProjectId |}
  else
    tryCatch
      (let languagesToSearch :=
         match languages with
         | Some l => l
         | None => Config.getConfiguredLanguages appConfig
         end in
       allItems <- fetchAllPageItemsWithSlugs (Some languagesToSearch) ;;
       let slugMap := buildSlugMap allItems in
       duplicates <- liftOutcome (findTrueDuplicates slugMap) ;;
       ret {| duplicates := duplicates;
              dr_totalItems := Some (List.length allItems);
              uniqueSlugs := Some (List.length slugMap);
              dr_error := None |})
      (fun err =>
         ret {| duplicates := []; dr_totalItems := None; uniqueSlugs := None;
                dr_error := Some (String.append "Unexpected error: " err) |}).

Definition failedSearch (message method : string) : SearchResult :=
  {| merged := {| success := false; items := []; error := Some message; method := method;
                  totalItems := None; exactMatches := None; allSlugsCount := None;
                  note := None |};
     deliveryApi := None; deliveryApiAllItems := None; managementApi := None |}.

Definition itemsOrEmpty (r : option ApiResult) : list ContentItem :=
  match r with Some r => items r | None => [] end.

Definition searchSpecificSlug (targetSlug : string) : Async SearchResult :=
  if negb (Config.isConfigValid appConfig)
  then ret (failedSearch missingProjectId "none")
  else
    tryCatch
      (viaDelivery <- Api.searchWithDeliveryApi appConfig client targetSlug ;;
       viaAllItems <- Api.searchAllItemsDeliveryApi appConfig client targetSlug ;;
       viaManagement <-
         (if JS.truthy (managementApiKey appConfig)
          then (r <- Api.searchWithManagementApi targetSlug ;; ret (Some r))
          else ret None) ;;
       let allItems := items viaDelivery ++ items viaAllItems ++ itemsOrEmpty viaManagement in
       let uniqueItems := Api.removeDuplicateItems ci_codename ci_language allItems in
       ret {| merged := {| success := true; items := uniqueItems; error := None;
                           method := "combined-sdk";
                           totalItems := Some (List.length uniqueItems);
                           exactMatches := None; allSlugsCount := None; note := None |};
              deliveryApi := Some viaDelivery;
              deliveryApiAllItems := Some viaAllItems;
              managementApi := viaManagement |})
      (fun err => ret (failedSearch (String.append "Unexpected error: " err) "error")).

End WithClient.

End Search.

(** ** Initialisation of the configuration ([src/config/index.ts]) *)

(** [String.prototype.split(",")]: the pieces between the commas, empty
    pieces included. *)
Fixpoint splitOnComma (current s : string) : list string :=
  match s with
  | EmptyString => [current]
  | String a r =>
      if Ascii.eqb a ","%char
      then current :: splitOnComma EmptyString r
      else splitOnComma (String.append current (String a EmptyString)) r
  end.

Module ConfigInit.

(** [import.meta.env]: the variables injected at build time, [None] when the
    object itself is missing. *)
Definition ImportMetaEnv := option (string -> option string).

(** [import.meta.env?.[key] || ""] *)
Definition getEnvVar (env : ImportMetaEnv) (key : string) : string :=
  match env with
  | Some variables => JS.orElse (variables key) ""
  | None => ""
  end.

(** What [getCustomAppContext] resolves to, as far as it is read: [isError]
    and [context?.environmentId]. *)
Record CustomAppContext := {
  isError : bool;
  contextEnvironmentId : option string }.

(** The identifier taken from the context: the call may throw, report an
    error, or lack a non-empty identifier. *)
Definition environmentIdOf (ctx : Outcome CustomAppContext) : option string :=
  match ctx with
  | Returned c =>
      if negb (isError c) && JS.truthyOpt (contextEnvironmentId c)
      then contextEnvironmentId c
      else None
  | Thrown _ => None
  end.

(** The value the global [appConfig] starts with. *)
Definition appConfig : AppConfig :=
  {| projectId := ""; environmentId := ""; deliveryApiKey := ""; managementApiKey := "";
     languages := []; defaultLanguage := "en" |}.

Section WithTrim.

(** [String.prototype.trim]; the development holds for whatever it computes. *)
Variable trim : string -> string.

(** [initializeConfig], as a function of the environment variables, of the
    outcome of [getCustomAppContext] and of the configuration it mutates. *)
Definition initializeConfig (env : ImportMetaEnv) (ctx : Outcome CustomAppContext)
    (appConfig : AppConfig) : AppConfig :=
  let projectId1 := JS.orDefault (getEnvVar env "VITE_KONTENT_PROJECT_ID") "" in
  let environmentId1 := JS.orDefault (getEnvVar env "VITE_KONTENT_ENVIRONMENT_ID") "" in
  let envLanguages := getEnvVar env "VITE_KONTENT_LANGUAGES" in
  let languages1 :=
    if JS.truthy envLanguages
    then map trim (splitOnComma EmptyString envLanguages)
    else languages appConfig in
  let envDefaultLanguage := getEnvVar env "VITE_KONTENT_DEFAULT_LANGUAGE" in
  let defaultLanguage1 :=
    if JS.truthy envDefaultLanguage then trim envDefaultLanguage
    else defaultLanguage appConfig in
  match environmentIdOf ctx with
  | Some id =>
      {| projectId := id; environmentId := id;
         deliveryApiKey := deliveryApiKey appConfig;
         managementApiKey := managementApiKey appConfig;
         languages := languages1; defaultLanguage := defaultLanguage1 |}
  | None =>
      {| projectId := projectId1; environmentId := environmentId1;
         deliveryApiKey := deliveryApiKey appConfig;
         managementApiKey := managementApiKey appConfig;
         languages := languages1; defaultLanguage := defaultLanguage1 |}
  end.

End WithTrim.

End ConfigInit.

(** ** The language settings of the user ([src/config/index.ts] in its
    version with [userHasConfiguredLanguages], and the handlers of
    [src/main.ts] that change the configuration) *)

Module App.

(** The two pieces of module state: the global [appConfig] and the flag. *)
Record State := {
  config : AppConfig;
  userHasConfiguredLanguages : bool }.

Definition initialState : State :=
  {| config := ConfigInit.appConfig; userHasConfiguredLanguages := false |}.

Definition setUserConfiguredLanguages (st : State) : State :=
  {| config := config st; userHasConfiguredLanguages := true |}.

Definition hasUserConfiguredLanguages (st : State) : bool :=
  userHasConfiguredLanguages st.

Definition resetUserConfiguredLanguages (st : State) : State :=
  {| config := config st; userHasConfiguredLanguages := false |}.

Section WithTrim.

Variable trim : string -> string.

(** [initializeConfig] of this version: the environment identifier only, and
    the languages only while the user has not configured them. *)
Definition initializeConfig (env : ConfigInit.ImportMetaEnv)
    (ctx : Outcome ConfigInit.CustomAppContext) (st : State) : State :=
  let appConfig := config st in
  let environmentId1 :=
    JS.orDefault (ConfigInit.getEnvVar env "VITE_KONTENT_ENVIRONMENT_ID") "" in
  let envLanguages := ConfigInit.getEnvVar env "VITE_KONTENT_LANGUAGES" in
  let languages1 :=
    if negb (userHasConfiguredLanguages st) && JS.truthy envLanguages
    then map trim (splitOnComma EmptyString envLanguages)
    else languages appConfig in
  let envDefaultLanguage := ConfigInit.getEnvVar env "VITE_KONTENT_DEFAULT_LANGUAGE" in
  let defaultLanguage1 :=
    if negb (userHasConfiguredLanguages st) && JS.truthy envDefaultLanguage
    then trim envDefaultLanguage
    else defaultLanguage appConfig in
  {| config :=
       {| projectId := projectId appConfig;
          environmentId :=
            match ConfigInit.environmentIdOf ctx with
            | Some id => id
            | None => environmentId1
            end;
          deliveryApiKey := deliveryApiKey appConfig;
          managementApiKey := managementApiKey appConfig;
          languages := languages1; defaultLanguage := defaultLanguage1 |};
     userHasConfiguredLanguages := userHasConfiguredLanguages st |}.

(** [handleConfigClick], configuration part: initialise again unless the user
    has configured the languages. *)
Definition handleConfigClick (env : ConfigInit.ImportMetaEnv)
    (ctx : Outcome ConfigInit.CustomAppContext) (st : State) : State :=
  if negb (hasUserConfiguredLanguages st) then initializeConfig env ctx st else st.

(** The click handler of the apply button, configuration part.  Its inputs
    are the values of the two text fields, [None] for a missing field. *)
Definition applyLanguages (languagesInput defaultLangInput : option string) (st : State)
  : State :=
  let languagesValue := option_map trim languagesInput in
  let defaultLangValue := option_map trim defaultLangInput in
  let appConfig := config st in
  setUserConfiguredLanguages
    {| config :=
         {| projectId := projectId appConfig;
            environmentId := environmentId appConfig;
            deliveryApiKey := deliveryApiKey appConfig;
            managementApiKey := managementApiKey appConfig;
            languages :=
              match languagesValue with
              | Some value =>
                  if JS.truthy value
                  then filter JS.truthy (map trim (splitOnComma EmptyString value))
                  else []
              | None => []
              end;
            defaultLanguage :=
              match defaultLangValue with
              | Some value => if JS.truthy value then value else defaultLanguage appConfig
              | None => defaultLanguage appConfig
              end |};
       userHasConfiguredLanguages := userHasConfiguredLanguages st |}.

(** The click handler of the reset button, configuration part. *)
Definition resetLanguages (st : State) : State :=
  {| config :=
       {| projectId := projectId (config st);
          environmentId := environmentId (config st);
          deliveryApiKey := deliveryApiKey (config st);
          managementApiKey := managementApiKey (config st);
          languages := []; defaultLanguage := "en" |};
     userHasConfiguredLanguages := userHasConfiguredLanguages st |}.

(** What happens to the configuration: the application starts, the user
    opens the configuration, applies language settings, or resets them. *)
Inductive Event :=
| Started (env : ConfigInit.ImportMetaEnv) (ctx : Outcome ConfigInit.CustomAppContext)
| ConfigClicked (env : ConfigInit.ImportMetaEnv) (ctx : Outcome ConfigInit.CustomAppContext)
| LanguagesApplied (languagesInput defaultLangInput : option string)
| LanguagesReset.

Definition handle (st : State) (ev : Event) : State :=
  match ev with
  | Started env ctx => initializeConfig env ctx st
  | ConfigClicked env ctx => handleConfigClick env ctx st
  | LanguagesApplied l d => applyLanguages l d st
  | LanguagesReset => resetLanguages st
  end.

Definition run (events : list Event) (st : State) : State := fold_left handle events st.

End WithTrim.

End App.

(** A [trim] for the examples: it strips the leading and trailing spaces. *)
Fixpoint dropSpaces (s : string) : string :=
  match s with
  | String a r => if Ascii.eqb a " "%char then dropSpaces r else s
  | EmptyString => EmptyString
  end.

Fixpoint reverseString (s acc : string) : string :=
  match s with
  | EmptyString => acc
  | String a r => reverseString r (String a acc)
  end.

Definition trimSpaces (s : string) : string :=
  reverseString (dropSpaces (reverseString (dropSpaces s) EmptyString)) EmptyString.

(** Environment variables of a local run, and a context from the host. *)
Definition localEnv : ConfigInit.ImportMetaEnv :=
  Some (fun key =>
          if String.eqb key "VITE_KONTENT_PROJECT_ID" then Some "env-project"
          else if String.eqb key "VITE_KONTENT_LANGUAGES" then Some "en, de ,,zh"
          else None).

Definition hostContext : Outcome ConfigInit.CustomAppContext :=
  Returned {| ConfigInit.isError := false; ConfigInit.contextEnvironmentId := Some "env-host" |}.

(** ** Building the delivery client *)

(** [createClient] of [api.ts], and the same call at the head of
    [fetchAllPageItemsWithSlugs]: the SDK's [createDeliveryClient] receives
    the project identifier as [environmentId] and [deliveryApiKey || undefined]
    as [secureApiKey]. *)
Definition createClient (createDeliveryClient : string -> option string -> Client)
    (appConfig : AppConfig) : Client :=
  createDeliveryClient (projectId appConfig)
    (if JS.truthy (deliveryApiKey appConfig) then Some (deliveryApiKey appConfig) else None).

(** ** Vocabulary of the statements *)

(** Appending [x] to the list kept under [k], creating the list on the first
    encounter: the step shared by [buildSlugMap] and by the [reduce] of
    [groupItemsByCodename]. *)
Definition pushAt {V} (k : string) (x : V) (m : JS.Store (list V)) : JS.Store (list V) :=
  let m := if JS.has k m then m else JS.set k [] m in
  match JS.get k m with
  | Some l => JS.set k (l ++ [x]) m
  | None => m
  end.

(** The store that lists, for each distinct key in order of first
    occurrence, the values of the elements with that key, in input order. *)
Definition groupedBy {A V} (key : A -> string) (val : A -> V) (l : list A)
  : JS.Store (list V) :=
  map (fun k => (k, map val (filter (fun x => String.eqb (key x) k) l)))
      (JS.newSet (map key l)).

(** Total number of records held by a slug index. *)
Definition totalRecords {V} (m : JS.Store (list V)) : nat :=
  list_sum (map (fun e => List.length (snd e)) m).

(** All records of a slug index, list after list. *)
Definition allRecords {V} (m : JS.Store (list V)) : list V :=
  List.concat (map snd m).

(** The records of [items] whose codename is [c], in input order. *)
Definition withCodename (c : string) (items : list SlugItem) : list SlugItem :=
  filter (fun r => String.eqb (codename r) c) items.

(** The set of distinct codenames among records. *)
Definition distinctCodenames (items : list SlugItem) : list string :=
  nodup string_dec (map codename items).

(** The slug [buildSlugMap] files an item under; empty when the item has
    no slug value and is skipped. *)
Definition slugKey (item : PageItem) : string :=
  match Api.slugValueOf item with Some s => s | None => "" end.

(** The page items that have a slug value and whose slug is [s]. *)
Definition withSlug (s : string) (items : list PageItem) : list PageItem :=
  filter (fun it => String.eqb (slugKey it) s) (filter Api.hasSlug items).

(** The language-tag entries of a joined languages value: the pieces
    between the separators [", "]. *)
Fixpoint splitTags (current joined : string) : list string :=
  match joined with
  | EmptyString => [current]
  | String a r =>
      match r with
      | String b r' =>
          if Ascii.eqb a ","%char && Ascii.eqb b " "%char
          then current :: splitTags EmptyString r'
          else splitTags (String.append current (String a EmptyString)) r
      | EmptyString => splitTags (String.append current (String a EmptyString)) r
      end
  end.

Definition languageTags (e : SlugItem) : list string :=
  splitTags EmptyString (language e).

(** The (codename, language) pair of a record of the slug index. *)
Definition pairOf (r : SlugItem) : string * string := (codename r, language r).

(** The elements kept when scanning [l] left to right and dropping every
    element that has the key of an element already [seen]. *)
Fixpoint keepNew {T} (same : T -> T -> bool) (seen l : list T) : list T :=
  match l with
  | [] => []
  | x :: r =>
      if existsb (same x) seen
      then keepNew same (seen ++ [x]) r
      else x :: keepNew same (seen ++ [x]) r
  end.

(** The (codename, language) pair that [removeDuplicateItems] compares. *)
Definition pairKey {T} (codenameOf languageOf : T -> string) (x : T) : string * string :=
  (codenameOf x, languageOf x).

(** The dedup key of the search merger. *)
Definition keyOf (item : ContentItem) : string * string :=
  (ci_codename item, ci_language item).

(** What one request contributes to a strategy that guards it: the formatted
    items, or nothing when the request is rejected. *)
Definition contribution (response : Outcome (list PageItem)) (lang : string)
  : list ContentItem :=
  match response with
  | Returned found => map (fun item => Api.formatSDKItem item lang) found
  | Thrown _ => []
  end.

Definition queryLanguage (q : Query) : string :=
  match q with
  | ItemsEquals _ _ lang => lang
  | ItemsAll lang _ => lang
  end.

(** What the requests [qs], issued in this order from request number [n]
    on, contribute together. *)
Fixpoint contributions (client : Client) (n : nat) (qs : list Query) : list ContentItem :=
  match qs with
  | [] => []
  | q :: r => contribution (client n q) (queryLanguage q) ++ contributions client (S n) r
  end.

(** The two lookups of [searchWithDeliveryApi] for one language. *)
Definition lookupsFor (target lang : string) : list Query :=
  [ItemsEquals "elements.url_slug" target lang; ItemsEquals "elements.slug" target lang].

(** All its lookups, in the order they are issued. *)
Definition deliveryQueries (target : string) : list Query :=
  flat_map (lookupsFor target) Api.LANGUAGE_CODES.

(** The result of the placeholder strategy. *)
Definition managementPlaceholder : ApiResult :=
  {| success := true; items := []; error := None; method := "management-api";
     totalItems := None; exactMatches := None; allSlugsCount := None;
     note := Some "Management API integration would require @kontent-ai/management-sdk for full implementation" |}.

(** The languages a detection run searches. *)
Definition languagesSearched (cfg : AppConfig) (languages : option (list string))
  : list string :=
  match languages with
  | Some l => l
  | None => Config.getConfiguredLanguages cfg
  end.

(** The request [fetchAllPageItemsWithSlugs] issues for a language. *)
Definition pagesIn (lang : string) : Query := ItemsAll lang ["url_slug"; "slug"].

(** The result of a detection run that found no item. *)
Definition emptyDetection : DuplicateResult :=
  {| duplicates := []; dr_totalItems := Some 0; uniqueSlugs := Some 0; dr_error := None |}.

(** The result of a detection run that failed with [message]. *)
Definition failedDetection (message : string) : DuplicateResult :=
  {| duplicates := []; dr_totalItems := None; uniqueSlugs := None; dr_error := Some message |}.

(** The slugs a detection run flags for the fetched [items], in index order. *)
Definition flaggedSlugs (items : list PageItem) : list string :=
  map fst (filter Search.isTrueDuplicate (Search.buildSlugMap items)).

(** What every handler preserves: the API keys stay empty, and once the user
    has configured the languages none of them is empty. *)
Definition settled (st : App.State) : Prop :=
  deliveryApiKey (App.config st) = ""
  /\ managementApiKey (App.config st) = ""
  /\ (App.userHasConfiguredLanguages st = true ->
      Forall (fun l => JS.truthy l = true) (languages (App.config st))).

(** *** Concrete inputs used in the examples below *)

Definition page (n c l : string) (primary secondary : option string) : PageItem :=
  {| system := {| sys_name := n; sys_codename := c; sys_type := "page"; sys_language := l |};
     elements := {| url_slug := primary; slug := secondary |} |}.

(** A page with neither slug element filled in. *)
Definition pageWithoutSlug : PageItem := page "Draft" "draft" "en" None None.

Definition record (n c l : string) : SlugItem :=
  {| name := n; codename := c; language := l; slugField := url_slug_field |}.

(** Two entities that publish the slug [contact]; the first one is a page
    named Constructor, whose codename is [constructor]. *)
Definition constructorPage : SlugItem := record "Constructor" "constructor" "en".

Definition articlePage : SlugItem := record "Article B" "article_b" "en".

Definition collidingIndex : JS.Store (list SlugItem) :=
  [("contact", [constructorPage; articlePage])].

(** One entity fetched twice in the same language, next to another entity
    with the same slug. *)
Definition repeatedIndex : JS.Store (list SlugItem) :=
  [("contact", [record "A" "article_a" "en"; record "B" "article_b" "en";
                record "A" "article_a" "en"])].

(** The home page in three languages, and two articles sharing a slug. *)
Definition exampleIndex : JS.Store (list SlugItem) :=
  [("home", [record "Home" "home_page" "de"; record "Home" "home_page" "en";
             record "Home" "home_page" "zh"]);
   ("contact", [record "A" "article_a" "en"; record "B" "article_b" "en";
                record "A" "article_a" "de"])].

Definition exampleConfig : AppConfig :=
  {| projectId := "env-1"; environmentId := "env-1"; deliveryApiKey := "";
     managementApiKey := ""; languages := ["en"; "de"]; defaultLanguage := "en" |}.

(** The same, with a management API key. *)
Definition keyedConfig : AppConfig :=
  {| projectId := "env-1"; environmentId := "env-1"; deliveryApiKey := "";
     managementApiKey := "mapi-key"; languages := ["en"; "de"]; defaultLanguage := "en" |}.

(** No project identifier: the configuration the module starts with. *)
Definition initialConfig : AppConfig :=
  {| projectId := ""; environmentId := ""; deliveryApiKey := "";
     managementApiKey := ""; languages := []; defaultLanguage := "en" |}.

(** A project where the pages Constructor and Article B both use the slug
    [contact]. *)
Definition collidingClient : Client :=
  fun _ q =>
    match q with
    | ItemsAll _ _ =>
        Returned [page "Constructor" "constructor" "en" (Some "contact") None;
                  page "Article B" "article_b" "en" (Some "contact") None]
    | ItemsEquals _ _ _ => Returned []
    end.

(** A project whose two articles exist in English only: a request for
    another language is answered with the English variants (language
    fallback), whose [system.language] is [en]. *)
Definition fallbackClient : Client :=
  fun _ q =>
    match q with
    | ItemsAll _ _ =>
        Returned [page "A" "article_a" "en" (Some "contact") None;
                  page "B" "article_b" "en" (Some "contact") None]
    | ItemsEquals _ _ _ => Returned []
    end.

(** A project without pages. *)
Definition emptyClient : Client := fun _ _ => Returned [].

(** A project whose contact page is found by the lookup on [url_slug] in
    English, and is listed by the all-items request with its slug in the
    [slug] element only. *)
Definition provenanceClient : Client :=
  fun _ q =>
    match q with
    | ItemsEquals "elements.url_slug" _ "en" =>
        Returned [page "Contact" "contact_page" "en" (Some "contact") None]
    | ItemsAll "en" _ =>
        Returned [page "Contact" "contact_page" "en" None (Some "contact")]
    | _ => Returned []
    end.

(** A client that rejects every all-items request and every lookup on
    [url_slug], and answers the lookups on [slug]. *)
Definition flakyClient : Client :=
  fun _ q =>
    match q with
    | ItemsEquals "elements.slug" _ _ =>
        Returned [page "Contact" "contact_page" "en" (Some "") (Some "contact")]
    | _ => Thrown "Network Error"
    end.

Definition contactIn (lang : string) (field : SlugField) : ContentItem :=
  {| ci_name := "Contact"; ci_codename := "contact_page"; ci_type := "page";
     ci_language := lang; ci_slug := "contact"; ci_slugField := field |}.

(** The body shared by the loops that fetch all pages language by language:
    the response, transformed by [keep], is pushed onto the items so far. *)
Definition fetchPages {X} (client : Client) (keep : string -> list PageItem -> list X)
    (lang : string) (allItems : list X) : Async (list X) :=
  bind (toAllPromise client (ItemsAll lang ["url_slug"; "slug"]))
       (fun response => ret (allItems ++ keep lang response)).

(** A client that rejects every request. *)
Definition offlineClient : Client := fun _ _ => Thrown "Network Error".

(** A client that answers for German and rejects the request for English. *)
Definition germanOnlyClient : Client :=
  fun _ q =>
    match q with
    | ItemsAll "de" _ => Returned [page "Kontakt" "contact_page" "de" (Some "kontakt") None]
    | ItemsAll "en" _ => Thrown "Language not found"
    | _ => Returned []
    end.

(** A project with three pages: two share the slug [contact], one has no
    slug value. *)
Definition threePagesClient : Client :=
  fun _ q =>
    match q with
    | ItemsAll "en" _ =>
        Returned [page "A" "article_a" "en" (Some "contact") None;
                  page "Draft" "draft" "en" None None;
                  page "B" "article_b" "en" None (Some "contact")]
    | _ => Returned []
    end.

(** [exampleConfig] with other language settings. *)
Definition frenchConfig : AppConfig :=
  {| projectId := "env-1"; environmentId := "other"; deliveryApiKey := "secret";
     managementApiKey := ""; languages := ["fr"]; defaultLanguage := "fr" |}.

(** [exampleConfig] with other languages and another environment
    identifier. *)
Definition spanishConfig : AppConfig :=
  {| projectId := "env-1"; environmentId := "other"; deliveryApiKey := "";
     managementApiKey := ""; languages := ["es"]; defaultLanguage := "es" |}.

(** The example configuration with a delivery key. *)
Definition securedConfig : AppConfig :=
  {| projectId := "env-1"; environmentId := "env-1"; deliveryApiKey := "dapi-key";
     managementApiKey := ""; languages := ["en"; "de"]; defaultLanguage := "en" |}.

(** An SDK whose clients answer only when no secure key is given. *)
Definition openSdk : string -> option string -> Client :=
  fun _ secureApiKey =>
    match secureApiKey with
    | None => provenanceClient
    | Some _ => offlineClient
    end.

(** ** Facts about the JavaScript operations *)

Section StoreFacts.

Context {V : Type}.
Implicit Types (m : JS.Store V) (k : string) (v : V).

Lemma get_set_eq m k v : JS.get k (JS.set k v m) = Some v.
Proof.
  induction m as [|[k' v'] m IH]; simpl.
  - now rewrite String.eqb_refl.
  - destruct (String.eqb k k') eqn:E; simpl; rewrite ?String.eqb_refl, ?E; auto.
Qed.

Lemma get_set_ne m k k' v : k <> k' -> JS.get k' (JS.set k v m) = JS.get k' m.
Proof.
  intros Hne. assert (Hf : String.eqb k' k = false) by (apply String.eqb_neq; congruence).
  induction m as [|[k0 v0] m IH]; simpl.
  - now rewrite Hf.
  - destruct (String.eqb k k0) eqn:E; simpl.
    + apply String.eqb_eq in E; subst k0. now rewrite Hf.
    + now rewrite IH.
Qed.

Lemma get_None_keys m k : JS.get k m = None <-> ~ In k (map fst m).
Proof.
  induction m as [|[k' v'] m IH]; simpl.
  - tauto.
  - destruct (String.eqb k k') eqn:E.
    + apply String.eqb_eq in E. split; [discriminate | intros H; exfalso; apply H; auto].
    + apply String.eqb_neq in E. rewrite IH. intuition congruence.
Qed.

Lemma get_Some_In m k v : JS.get k m = Some v -> In (k, v) m.
Proof.
  induction m as [|[k' v'] m IH]; simpl; [discriminate|].
  destruct (String.eqb k k') eqn:E.
  - apply String.eqb_eq in E; subst. intros [= ->]. now left.
  - intros H. right. now apply IH.
Qed.

Lemma In_get m k v : NoDup (map fst m) -> In (k, v) m -> JS.get k m = Some v.
Proof.
  induction m as [|[k' v'] m IH]; simpl; [tauto|].
  intros Hnd [Heq | Hin].
  - injection Heq as -> ->. now rewrite String.eqb_refl.
  - inversion Hnd as [|? ? Hnot Hnd']; subst.
    destruct (String.eqb k k') eqn:E.
    + apply String.eqb_eq in E; subst k'. exfalso. apply Hnot.
      change k with (fst (k, v)). now apply in_map.
    + now apply IH.
Qed.

Lemma set_fresh m k v : ~ In k (map fst m) -> JS.set k v m = m ++ [(k, v)].
Proof.
  induction m as [|[k' v'] m IH]; simpl; intros H; [reflexivity|].
  destruct (String.eqb k k') eqn:E.
  - apply String.eqb_eq in E. exfalso. apply H. auto.
  - rewrite IH; [reflexivity | intros Hin; apply H; auto].
Qed.

Lemma set_last m k v w : ~ In k (map fst m) -> JS.set k v (m ++ [(k, w)]) = m ++ [(k, v)].
Proof.
  induction m as [|[k' v'] m IH]; simpl; intros H.
  - now rewrite String.eqb_refl.
  - destruct (String.eqb k k') eqn:E.
    + apply String.eqb_eq in E. exfalso. apply H. auto.
    + rewrite IH; [reflexivity | intros Hin; apply H; auto].
Qed.

Lemma get_last m k w : ~ In k (map fst m) -> JS.get k (m ++ [(k, w)]) = Some w.
Proof.
  induction m as [|[k' v'] m IH]; simpl; intros H.
  - now rewrite String.eqb_refl.
  - destruct (String.eqb k k') eqn:E.
    + apply String.eqb_eq in E. exfalso. apply H. auto.
    + apply IH. intros Hin; apply H; auto.
Qed.

End StoreFacts.

Lemma existsb_eqb_In (x : string) (s : list string) :
  existsb (String.eqb x) s = true <-> In x s.
Proof.
  rewrite existsb_exists. split.
  - intros [y [Hy E]]. apply String.eqb_eq in E. now subst.
  - intros H. exists x. split; [assumption | apply String.eqb_refl].
Qed.

Lemma existsb_eqb_not_In (x : string) (s : list string) :
  existsb (String.eqb x) s = false <-> ~ In x s.
Proof.
  rewrite <- existsb_eqb_In. destruct (existsb (String.eqb x) s); intuition congruence.
Qed.

Lemma fold_setAdd_In (l s : list string) (x : string) :
  In x (fold_left JS.setAdd l s) <-> In x s \/ In x l.
Proof.
  revert s. induction l as [|y l IH]; intros s; simpl; [tauto|].
  rewrite IH. unfold JS.setAdd.
  destruct (existsb (String.eqb y) s) eqn:E.
  - apply existsb_eqb_In in E. intuition (subst; auto).
  - rewrite in_app_iff. simpl. intuition (subst; auto).
Qed.

Lemma fold_setAdd_NoDup (l s : list string) :
  NoDup s -> NoDup (fold_left JS.setAdd l s).
Proof.
  revert s. induction l as [|y l IH]; intros s Hs; simpl; [assumption|].
  apply IH. unfold JS.setAdd.
  destruct (existsb (String.eqb y) s) eqn:E; [assumption|].
  apply existsb_eqb_not_In in E.
  apply NoDup_rev in Hs. rewrite <- (rev_involutive (s ++ [y])).
  apply NoDup_rev. rewrite rev_app_distr. simpl. constructor; [|assumption].
  now rewrite <- in_rev.
Qed.

Lemma newSet_In (l : list string) (x : string) : In x (JS.newSet l) <-> In x l.
Proof. unfold JS.newSet. rewrite fold_setAdd_In. simpl. tauto. Qed.

Lemma newSet_NoDup (l : list string) : NoDup (JS.newSet l).
Proof. apply fold_setAdd_NoDup. constructor. Qed.

Lemma newSet_snoc (l : list string) (x : string) :
  JS.newSet (l ++ [x]) = JS.setAdd (JS.newSet l) x.
Proof. unfold JS.newSet. now rewrite fold_left_app. Qed.

(** The size of [new Set(l)] is the number of distinct elements of [l]. *)
Lemma newSet_size (l : list string) :
  List.length (JS.newSet l) = List.length (nodup string_dec l).
Proof.
  apply Permutation_length, NoDup_Permutation.
  - apply newSet_NoDup.
  - apply NoDup_nodup.
  - intros x. now rewrite newSet_In, nodup_In.
Qed.

(** A set has at least two elements exactly when the list holds two
    different values. *)
Lemma newSet_two (l : list string) :
  1 < List.length (JS.newSet l) <-> exists a b, In a l /\ In b l /\ a <> b.
Proof.
  pose proof (newSet_NoDup l) as Hnd. pose proof (newSet_In l) as Hin.
  destruct (JS.newSet l) as [|a [|b s]] eqn:E; simpl.
  - split; [lia|]. intros (a & b & Ha & _). apply Hin in Ha. contradiction.
  - split; [lia|]. intros (x & y & Hx & Hy & Hne).
    apply Hin in Hx. apply Hin in Hy. simpl in *. intuition congruence.
  - split; [|lia]. intros _. exists a, b. repeat split.
    + apply Hin. simpl; auto.
    + apply Hin. simpl; auto.
    + inversion Hnd as [|? ? Hnot _]; subst. intros ->. apply Hnot. simpl; auto.
Qed.

Section Tabulate.

Context {W : Type}.

Lemma get_tabulate (f : string -> W) (s : list string) k :
  JS.get k (map (fun k' => (k', f k')) s) =
  if existsb (String.eqb k) s then Some (f k) else None.
Proof.
  induction s as [|k' s IH]; simpl; [reflexivity|].
  destruct (String.eqb k k') eqn:E; simpl; [|assumption].
  apply String.eqb_eq in E. now subst.
Qed.

Lemma set_tabulate (f g : string -> W) (s : list string) k :
  NoDup s -> In k s -> (forall k', k' <> k -> g k' = f k') ->
  JS.set k (g k) (map (fun k' => (k', f k')) s) = map (fun k' => (k', g k')) s.
Proof.
  intros Hnd Hin Hg. induction s as [|k' s IH]; simpl; [contradiction|].
  inversion Hnd as [|? ? Hnot Hnd']; subst.
  destruct (String.eqb k k') eqn:E.
  - apply String.eqb_eq in E; subst k'. f_equal.
    apply map_ext_in. intros k' Hk'. rewrite Hg; [reflexivity|].
    intros ->. contradiction.
  - apply String.eqb_neq in E. destruct Hin as [->|Hin]; [congruence|].
    rewrite IH by assumption. rewrite Hg by congruence. reflexivity.
Qed.

End Tabulate.

Section Grouping.

Context {A V : Type} (key : A -> string) (val : A -> V).

Lemma pushAt_present (m : JS.Store (list V)) k x l :
  JS.get k m = Some l -> pushAt k x m = JS.set k (l ++ [x]) m.
Proof. intros H. unfold pushAt, JS.has. now rewrite H, H. Qed.

Lemma pushAt_absent (m : JS.Store (list V)) k x :
  JS.get k m = None -> pushAt k x m = m ++ [(k, [x])].
Proof.
  intros H. unfold pushAt, JS.has. rewrite H.
  apply get_None_keys in H.
  rewrite (set_fresh m k [] H), (get_last m k [] H). simpl.
  now apply set_last.
Qed.

Lemma groupedBy_snoc_old (l : list A) (x : A) :
  In (key x) (map key l) ->
  groupedBy key val (l ++ [x]) = pushAt (key x) (val x) (groupedBy key val l).
Proof.
  intros Hin. unfold groupedBy at 1.
  rewrite map_app; simpl (map key [x]); rewrite newSet_snoc. unfold JS.setAdd.
  assert (Hs : In (key x) (JS.newSet (map key l))) by now apply newSet_In.
  pose proof Hs as Hb. apply existsb_eqb_In in Hb. rewrite Hb.
  set (f := fun k => map val (filter (fun y => String.eqb (key y) k) l)).
  rewrite (pushAt_present _ _ _ (f (key x))).
  2:{ unfold groupedBy. fold f. rewrite (get_tabulate f). now rewrite Hb. }
  unfold groupedBy. fold f.
  set (g := fun k => map val (filter (fun y => String.eqb (key y) k) (l ++ [x]))).
  assert (Hgx : g (key x) = f (key x) ++ [val x]).
  { unfold g, f. rewrite filter_app, map_app. simpl. now rewrite String.eqb_refl. }
  rewrite <- Hgx. symmetry. apply set_tabulate; [apply newSet_NoDup | assumption |].
  intros k' Hne. unfold g, f. rewrite filter_app. simpl.
  destruct (String.eqb (key x) k') eqn:E.
  - apply String.eqb_eq in E. congruence.
  - now rewrite app_nil_r.
Qed.

Lemma groupedBy_snoc_new (l : list A) (x : A) :
  ~ In (key x) (map key l) ->
  groupedBy key val (l ++ [x]) = pushAt (key x) (val x) (groupedBy key val l).
Proof.
  intros Hnot. unfold groupedBy at 1.
  rewrite map_app; simpl (map key [x]); rewrite newSet_snoc. unfold JS.setAdd.
  assert (Hs : ~ In (key x) (JS.newSet (map key l))) by now rewrite newSet_In.
  pose proof Hs as Hb. apply existsb_eqb_not_In in Hb. rewrite Hb.
  rewrite pushAt_absent.
  2:{ unfold groupedBy.
      rewrite (get_tabulate (fun k => map val (filter (fun y => String.eqb (key y) k) l))).
      now rewrite Hb. }
  rewrite map_app. simpl. f_equal.
  - unfold groupedBy. apply map_ext_in. intros k Hk. f_equal.
    rewrite filter_app. simpl.
    destruct (String.eqb (key x) k) eqn:E.
    + apply String.eqb_eq in E. subst k. contradiction.
    + now rewrite app_nil_r.
  - f_equal. f_equal. rewrite filter_app, map_app. simpl. rewrite String.eqb_refl.
    replace (filter (fun y => String.eqb (key y) (key x)) l) with (@nil A); [reflexivity|].
    symmetry. clear Hs Hb. induction l as [|y l IH]; simpl; [reflexivity|].
    destruct (String.eqb (key y) (key x)) eqn:E.
    + apply String.eqb_eq in E. exfalso. apply Hnot. simpl. auto.
    + apply IH. intros H. apply Hnot. simpl. auto.
Qed.

(** Folding [pushAt] over a list groups it by key. *)
Lemma fold_pushAt (l : list A) :
  fold_left (fun m x => pushAt (key x) (val x) m) l [] = groupedBy key val l.
Proof.
  induction l as [|x l IH] using rev_ind; [reflexivity|].
  rewrite fold_left_app. simpl. rewrite IH.
  destruct (in_dec string_dec (key x) (map key l)).
  - symmetry. now apply groupedBy_snoc_old.
  - symmetry. now apply groupedBy_snoc_new.
Qed.

Lemma groupedBy_keys (l : list A) :
  map fst (groupedBy key val l) = JS.newSet (map key l).
Proof. unfold groupedBy. rewrite map_map. simpl. apply map_id. Qed.

Lemma groupedBy_In (l : list A) k vs :
  In (k, vs) (groupedBy key val l) <->
  In k (map key l) /\ vs = map val (filter (fun x => String.eqb (key x) k) l).
Proof.
  unfold groupedBy. rewrite in_map_iff. split.
  - intros (k' & [= <- <-] & Hk). split; [now apply newSet_In | reflexivity].
  - intros [Hk ->]. exists k. split; [reflexivity | now apply newSet_In].
Qed.

End Grouping.

Section RecordsOfAStore.

Context {V : Type}.

Lemma totalRecords_length (m : JS.Store (list V)) :
  totalRecords m = List.length (allRecords m).
Proof.
  unfold totalRecords, allRecords. rewrite length_concat, map_map. reflexivity.
Qed.

Lemma allRecords_set (m : JS.Store (list V)) k l x :
  JS.get k m = Some l ->
  Permutation (allRecords (JS.set k (l ++ [x]) m)) (x :: allRecords m).
Proof.
  unfold allRecords.
  induction m as [|[k' l'] m IH]; simpl; [discriminate|].
  destruct (String.eqb k k') eqn:E.
  - intros [= ->]. simpl. rewrite <- app_assoc. simpl.
    symmetry. apply Permutation_middle.
  - intros H. simpl. specialize (IH H).
    rewrite IH. symmetry. apply Permutation_middle.
Qed.

Lemma allRecords_pushAt (m : JS.Store (list V)) k x :
  Permutation (allRecords (pushAt k x m)) (x :: allRecords m).
Proof.
  destruct (JS.get k m) as [l|] eqn:E.
  - rewrite (pushAt_present m k x l E). now apply allRecords_set.
  - rewrite (pushAt_absent m k x E). unfold allRecords.
    rewrite map_app, concat_app. simpl.
    symmetry. apply Permutation_cons_append.
Qed.

End RecordsOfAStore.

Lemma allRecords_groupedBy {A V} (key : A -> string) (val : A -> V) (l : list A) :
  Permutation (allRecords (groupedBy key val l)) (map val l).
Proof.
  induction l as [|x l IH] using rev_ind; [reflexivity|].
  destruct (in_dec string_dec (key x) (map key l)) as [H|H].
  - rewrite (groupedBy_snoc_old key val l x H), allRecords_pushAt, IH, map_app.
    apply Permutation_cons_append.
  - rewrite (groupedBy_snoc_new key val l x H), allRecords_pushAt, IH, map_app.
    apply Permutation_cons_append.
Qed.

(** [Object.entries] lists every own property once. *)
Section ObjectEntries.

Context {V : Type}.

Lemma insertByIndex_perm (e : N * (string * V)) l :
  Permutation (JS.insertByIndex e l) (e :: l).
Proof.
  induction l as [|e' l IH]; simpl; [reflexivity|].
  destruct (fst e <=? fst e')%N; [reflexivity|].
  rewrite IH. apply perm_swap.
Qed.

Lemma sortByIndex_perm (l : list (N * (string * V))) :
  Permutation (JS.sortByIndex l) l.
Proof.
  induction l as [|e l IH]; simpl; [reflexivity|].
  rewrite insertByIndex_perm. now constructor.
Qed.

Lemma objectEntries_perm (o : JS.Store V) : Permutation (JS.objectEntries o) o.
Proof.
  unfold JS.objectEntries. rewrite sortByIndex_perm.
  induction o as [|[k v] o IH]; simpl; [reflexivity|].
  unfold JS.indexed, JS.named in *. simpl.
  destruct (JS.arrayIndex k); simpl.
  - now constructor.
  - rewrite <- Permutation_middle. now constructor.
Qed.

Lemma objectEntries_In (o : JS.Store V) e : In e (JS.objectEntries o) <-> In e o.
Proof.
  split; apply Permutation_in; [|symmetry]; apply objectEntries_perm.
Qed.

End ObjectEntries.

(** ** The slug index builder *)

Lemma hasSlug_slugKey (item : PageItem) : Api.hasSlug item = JS.truthy (slugKey item).
Proof.
  unfold Api.hasSlug, slugKey. now destruct (Api.slugValueOf item).
Qed.

Lemma buildSlugMapStep_pushAt (m : JS.Store (list SlugItem)) (item : PageItem) :
  Search.buildSlugMapStep m item =
  if Api.hasSlug item then pushAt (slugKey item) (Search.slugItemOf item) m else m.
Proof.
  rewrite hasSlug_slugKey. unfold Search.buildSlugMapStep, slugKey, pushAt.
  destruct (Api.slugValueOf item) as [s|]; simpl; [|reflexivity].
  now destruct (JS.truthy s).
Qed.

Lemma fold_buildSlugMapStep (items : list PageItem) (m : JS.Store (list SlugItem)) :
  fold_left Search.buildSlugMapStep items m =
  fold_left (fun m it => pushAt (slugKey it) (Search.slugItemOf it) m)
            (filter Api.hasSlug items) m.
Proof.
  revert m. induction items as [|it items IH]; intros m; simpl; [reflexivity|].
  rewrite buildSlugMapStep_pushAt.
  destruct (Api.hasSlug it); simpl; apply IH.
Qed.

(** The index is the grouping by slug of the items that have one. *)
Lemma buildSlugMap_groupedBy (items : list PageItem) :
  Search.buildSlugMap items =
  groupedBy slugKey Search.slugItemOf (filter Api.hasSlug items).
Proof.
  unfold Search.buildSlugMap. rewrite fold_buildSlugMapStep. apply fold_pushAt.
Qed.

Lemma buildSlugMap_records (items : list PageItem) :
  Permutation (allRecords (Search.buildSlugMap items))
              (map Search.slugItemOf (filter Api.hasSlug items)).
Proof. rewrite buildSlugMap_groupedBy. apply allRecords_groupedBy. Qed.

Lemma buildSlugMap_total (items : list PageItem) :
  totalRecords (Search.buildSlugMap items) = List.length (filter Api.hasSlug items).
Proof.
  rewrite totalRecords_length, (Permutation_length (buildSlugMap_records items)).
  apply length_map.
Qed.

(** Called on its own with a page that has no slug value, the builder skips
    it: the guard of its loop repeats the test of the fetcher, which never
    lets such a page through. *)
Lemma buildSlugMap_drops_slugless :
  ~ (forall items : list PageItem,
       totalRecords (Search.buildSlugMap items) = List.length items).
Proof.
  intros H. specialize (H [pageWithoutSlug]). discriminate H.
Qed.

(** On any list of pages, the lists of the slug index hold, in total, as many
    records as there are input items with a non-empty [url_slug] or [slug]
    value; they hold exactly the records of those items, none twice; the slugs
    are pairwise distinct, and the list under a slug is made of the records of
    the items with that slug, in input order. *)
Theorem buildSlugMap_conserves_slugged_items (items : list PageItem) :
  totalRecords (Search.buildSlugMap items) = List.length (filter Api.hasSlug items)
  /\ Permutation (allRecords (Search.buildSlugMap items))
                 (map Search.slugItemOf (filter Api.hasSlug items))
  /\ NoDup (map fst (Search.buildSlugMap items))
  /\ forall s records,
       In (s, records) (Search.buildSlugMap items) <->
       In s (map slugKey (filter Api.hasSlug items))
       /\ records = map Search.slugItemOf (withSlug s items).
Proof.
  split; [apply buildSlugMap_total|]. split; [apply buildSlugMap_records|].
  rewrite buildSlugMap_groupedBy. split.
  - rewrite groupedBy_keys. apply newSet_NoDup.
  - intros s records. unfold withSlug. apply groupedBy_In.
Qed.

(** When every input item has a slug value, the count is the input length. *)
Corollary buildSlugMap_conserves_count (items : list PageItem) :
  forallb Api.hasSlug items = true ->
  totalRecords (Search.buildSlugMap items) = List.length items.
Proof.
  intros H. rewrite buildSlugMap_total. f_equal. apply forallb_filter_id. exact H.
Qed.

Lemma forOf_hasSlug (client : Client) (langs : list string) :
  forall acc log log' allItems,
    forallb Api.hasSlug acc = true ->
    forOf langs
      (fun lang allItems =>
         bind (toAllPromise client (ItemsAll lang ["url_slug"; "slug"]))
              (fun response => ret (allItems ++ filter Api.hasSlug response)))
      acc log = (log', Returned allItems) ->
    forallb Api.hasSlug allItems = true.
Proof.
  induction langs as [|lang langs IH]; simpl; intros acc log log' allItems Hacc H.
  - injection H as _ <-. exact Hacc.
  - unfold bind at 1 in H. unfold bind at 1 in H. unfold toAllPromise in H.
    destruct (client (List.length log) (ItemsAll lang ["url_slug"; "slug"])) as [resp|e].
    + unfold ret at 1 in H. eapply IH; [|exact H].
      rewrite forallb_app, Hacc. simpl.
      apply forallb_forall. intros x Hx. now apply filter_In in Hx.
    + discriminate H.
Qed.

(** The items [findDuplicateSlugs] hands to the builder all have a slug
    value, so for them the index holds as many records as items. *)
Corollary fetched_items_all_indexed (cfg : AppConfig) (client : Client)
    (langs : option (list string)) (log log' : list Query) (allItems : list PageItem) :
  Search.fetchAllPageItemsWithSlugs cfg client langs log = (log', Returned allItems) ->
  totalRecords (Search.buildSlugMap allItems) = List.length allItems.
Proof.
  intros H. apply buildSlugMap_conserves_count.
  unfold Search.fetchAllPageItemsWithSlugs in H.
  eapply forOf_hasSlug; [|exact H]. reflexivity.
Qed.

(** C2.  For every sequence of fetched page items handed to the builder, that
    is for everything [fetchAllPageItemsWithSlugs] returns, every item has a
    slug value, the lengths of the per-slug lists of the index add up to the
    length of the sequence, the lists together hold exactly the records of the
    items, none dropped and none twice, the slugs of the index are pairwise
    distinct, and the list under a slug holds the records of the items with
    that slug, in input order. *)
Theorem index_conserves_fetched_items
    (cfg : AppConfig) (client : Client) (langs : option (list string))
    (log log' : list Query) (allItems : list PageItem) :
  Search.fetchAllPageItemsWithSlugs cfg client langs log = (log', Returned allItems) ->
  forallb Api.hasSlug allItems = true
  /\ totalRecords (Search.buildSlugMap allItems) = List.length allItems
  /\ Permutation (allRecords (Search.buildSlugMap allItems))
                 (map Search.slugItemOf allItems)
  /\ NoDup (map fst (Search.buildSlugMap allItems))
  /\ forall s records,
       In (s, records) (Search.buildSlugMap allItems) ->
       records <> []
       /\ records =
          map Search.slugItemOf (filter (fun it => String.eqb (slugKey it) s) allItems).
Proof.
  intros H.
  assert (Hslugs : forallb Api.hasSlug allItems = true).
  { unfold Search.fetchAllPageItemsWithSlugs in H.
    eapply forOf_hasSlug; [|exact H]. reflexivity. }
  assert (Hid : filter Api.hasSlug allItems = allItems) by now apply forallb_filter_id.
  split; [exact Hslugs|]. split; [|split; [|split]].
  - rewrite buildSlugMap_total. now rewrite Hid.
  - rewrite <- Hid at 2. apply buildSlugMap_records.
  - rewrite buildSlugMap_groupedBy, groupedBy_keys. apply newSet_NoDup.
  - intros s records Hin. rewrite buildSlugMap_groupedBy in Hin.
    apply groupedBy_In in Hin. destruct Hin as [Hs ->]. rewrite Hid in *. split; [|reflexivity].
    apply in_map_iff in Hs. destruct Hs as (it & <- & Hit). intros E.
    assert (Hin : In (Search.slugItemOf it)
                     (map Search.slugItemOf
                        (filter (fun it' => String.eqb (slugKey it') (slugKey it)) allItems))).
    { apply in_map, filter_In. split; [exact Hit | apply String.eqb_refl]. }
    rewrite E in Hin. contradiction.
Qed.

(** ** Callbacks that may throw *)

Lemma mapThrowing_Forall2 {A B} (f : A -> Outcome B) (l : list A) (ys : list B) :
  mapThrowing f l = Returned ys <-> Forall2 (fun x y => f x = Returned y) l ys.
Proof.
  revert ys. induction l as [|x l IH]; intros ys; simpl.
  - split.
    + intros [= <-]. constructor.
    + intros H. inversion H. reflexivity.
  - destruct (f x) as [y|e] eqn:Ex; simpl.
    + destruct (mapThrowing f l) as [ys'|e] eqn:El; simpl.
      * split.
        -- intros [= <-]. constructor; [assumption | now apply IH].
        -- intros H. inversion H as [|? y0 ? ys0 Hy Hys]; subst.
           apply IH in Hys. congruence.
      * split; [discriminate|].
        intros H. inversion H as [|? y0 ? ys0 Hy Hys]; subst.
        apply IH in Hys. discriminate.
    + split; [discriminate|].
      intros H. inversion H; subst. congruence.
Qed.

Lemma mapThrowing_total {A B} (f : A -> Outcome B) (l : list A) :
  (forall x, In x l -> exists y, f x = Returned y) ->
  exists ys, mapThrowing f l = Returned ys.
Proof.
  induction l as [|x l IH]; intros H; simpl.
  - now exists [].
  - destruct (H x) as [y Hy]; [now left|]. rewrite Hy. simpl.
    destruct IH as [ys Hys]; [intros z Hz; apply H; now right|].
    rewrite Hys. simpl. now exists (y :: ys).
Qed.

Lemma mapThrowing_throws {A B} (f : A -> Outcome B) (l : list A) e :
  (forall x, In x l -> f x = Thrown e) -> l <> [] -> mapThrowing f l = Thrown e.
Proof.
  destruct l as [|x l]; intros H Hne; [congruence|].
  simpl. rewrite (H x); [reflexivity | now left].
Qed.

(** ** The result grouper *)

Lemma get_pushAt_ne {V} (m : JS.Store (list V)) k k' x :
  k <> k' -> JS.get k' (pushAt k x m) = JS.get k' m.
Proof.
  intros Hne. destruct (JS.get k m) as [l|] eqn:E.
  - rewrite (pushAt_present m k x l E). now apply get_set_ne.
  - rewrite (pushAt_absent m k x E).
    rewrite <- (set_fresh m k [x]) by now apply get_None_keys.
    now apply get_set_ne.
Qed.

(** On a codename that [Object.prototype] does not define, the callback
    appends the item to the list of its codename. *)
Lemma groupStep_pushAt (acc : JS.Store (list SlugItem)) (item : SlugItem) :
  JS.isInherited (codename item) = false ->
  Search.groupStep acc item = Returned (pushAt (codename item) item acc).
Proof.
  intros Hk. unfold Search.groupStep, JS.objGet, pushAt, JS.has.
  destruct (JS.get (codename item) acc) as [l|] eqn:E.
  - now rewrite E.
  - rewrite Hk. rewrite get_set_eq. reflexivity.
Qed.

(** On a codename that names a member of [Object.prototype], [acc[codename]]
    is that member: it is truthy, so no list is created, and it has no
    [push], so the call throws. *)
Lemma groupStep_inherited (acc : JS.Store (list SlugItem)) (item : SlugItem) :
  JS.isInherited (codename item) = true ->
  JS.get (codename item) acc = None ->
  Search.groupStep acc item = Thrown Search.pushIsNotAFunction.
Proof.
  intros Hk E. unfold Search.groupStep, JS.objGet. rewrite E, Hk. cbv zeta. now rewrite ?E, ?Hk.
Qed.

Lemma reduce_groupStep (items : list SlugItem) :
  forall acc : JS.Store (list SlugItem),
    (forall k, JS.isInherited k = true -> JS.get k acc = None) ->
    reduceThrowing Search.groupStep items acc =
    if existsb JS.isInherited (map codename items)
    then Thrown Search.pushIsNotAFunction
    else Returned (fold_left (fun m x => pushAt (codename x) x m) items acc).
Proof.
  induction items as [|item items IH]; intros acc Hacc; simpl; [reflexivity|].
  destruct (JS.isInherited (codename item)) eqn:Hk; simpl.
  - rewrite groupStep_inherited; auto.
  - rewrite groupStep_pushAt by assumption. simpl. apply IH.
    intros k Hin. rewrite get_pushAt_ne; [now apply Hacc | congruence].
Qed.

Lemma groupedBy_id_In (items : list SlugItem) k l :
  In (k, l) (groupedBy codename (fun x => x) items) <->
  In k (map codename items) /\ l = withCodename k items.
Proof. rewrite groupedBy_In, map_id. reflexivity. Qed.

Lemma withCodename_nonempty (items : list SlugItem) k :
  In k (map codename items) -> withCodename k items <> [].
Proof.
  intros H. apply in_map_iff in H. destruct H as (r & <- & Hr).
  intros E. assert (Hin : In r (withCodename (codename r) items)).
  { apply filter_In. split; [assumption | apply String.eqb_refl]. }
  rewrite E in Hin. contradiction.
Qed.

(** What [groupItemsByCodename] evaluates to, on every input. *)
Lemma groupItemsByCodename_outcome (items : list SlugItem) :
  Search.groupItemsByCodename items =
  if existsb JS.isInherited (map codename items)
  then Thrown Search.pushIsNotAFunction
  else mapThrowing Search.summarize
         (JS.objectEntries (groupedBy codename (fun x => x) items)).
Proof.
  unfold Search.groupItemsByCodename.
  rewrite reduce_groupStep by reflexivity.
  destruct (existsb JS.isInherited (map codename items)); simpl; [reflexivity|].
  now rewrite fold_pushAt.
Qed.

(** The rows of a group, when no codename collides with a member of
    [Object.prototype]: one row per distinct codename, each built from the
    records of its codename. *)
Lemma groupItemsByCodename_rows (items : list SlugItem) :
  existsb JS.isInherited (map codename items) = false ->
  exists entities,
    Search.groupItemsByCodename items = Returned entities
    /\ Permutation (map codename entities) (JS.newSet (map codename items))
    /\ forall e, In e entities ->
         exists first rest,
           withCodename (codename e) items = first :: rest
           /\ name e = name first
           /\ slugField e = slugField first
           /\ language e = JS.join ", " (map language (first :: rest)).
Proof.
  intros Hsafe. rewrite groupItemsByCodename_outcome, Hsafe.
  set (entries := JS.objectEntries (groupedBy codename (fun x => x) items)).
  assert (Hentries : forall en, In en entries ->
            In (fst en) (map codename items) /\ snd en = withCodename (fst en) items).
  { intros [k l] Hin. apply objectEntries_In, groupedBy_id_In in Hin. exact Hin. }
  destruct (mapThrowing_total Search.summarize entries) as [entities Hmap].
  { intros en Hin. destruct (Hentries en Hin) as [Hk Hl].
    unfold Search.summarize. destruct (snd en) as [|first rest] eqn:E.
    - exfalso. apply (withCodename_nonempty items (fst en) Hk). congruence.
    - eexists. reflexivity. }
  exists entities. split; [exact Hmap|].
  apply mapThrowing_Forall2 in Hmap. split.
  - transitivity (map fst entries).
    + assert (E : map codename entities = map fst entries).
      { clear Hentries. induction Hmap as [|en e ens es Hen _ IH]; simpl; [reflexivity|].
        f_equal; [|exact IH]. unfold Search.summarize in Hen.
        destruct (snd en); [discriminate|]. now injection Hen as <-. }
      now rewrite E.
    + unfold entries. rewrite (Permutation_map fst (objectEntries_perm _)).
      now rewrite groupedBy_keys.
  - intros e He.
    assert (Hex : exists en, In en entries /\ Search.summarize en = Returned e).
    { clear Hentries. induction Hmap as [|en e' ens es Hen _ IH]; [contradiction|].
      destruct He as [->|He].
      - exists en. split; [now left | assumption].
      - destruct (IH He) as (en' & Hin & Hs). exists en'. split; [now right | assumption]. }
    destruct Hex as (en & Hin & Hs). destruct (Hentries en Hin) as [Hk Hl].
    unfold Search.summarize in Hs. destruct (snd en) as [|first rest] eqn:E; [discriminate|].
    injection Hs as <-. simpl. exists first, rest. rewrite <- Hl. auto.
Qed.

(** Conversely the grouper throws as soon as one record carries such a
    codename. *)
Lemma groupItemsByCodename_throws (items : list SlugItem) :
  existsb JS.isInherited (map codename items) = true ->
  Search.groupItemsByCodename items = Thrown Search.pushIsNotAFunction.
Proof. intros H. now rewrite groupItemsByCodename_outcome, H. Qed.

Lemma groupItemsByCodename_count (items entities : list SlugItem) :
  Search.groupItemsByCodename items = Returned entities ->
  List.length entities = List.length (distinctCodenames items).
Proof.
  intros H. rewrite groupItemsByCodename_outcome in H.
  destruct (existsb JS.isInherited (map codename items)) eqn:Hsafe; [discriminate|].
  destruct (groupItemsByCodename_rows items Hsafe) as (entities' & H' & P & _).
  rewrite groupItemsByCodename_outcome, Hsafe in H'.
  assert (entities' = entities) by congruence. subst entities'.
  unfold distinctCodenames. rewrite <- newSet_size, <- (Permutation_length P).
  symmetry. apply length_map.
Qed.

(** ** The duplicate classifier *)

(** The test of the [filter]: at least two distinct codenames. *)
Lemma isTrueDuplicate_iff (s : string) (records : list SlugItem) :
  Search.isTrueDuplicate (s, records) = true <->
  2 <= List.length (distinctCodenames records).
Proof.
  unfold Search.isTrueDuplicate, distinctCodenames. simpl.
  rewrite newSet_size, Nat.ltb_lt. reflexivity.
Qed.

Lemma isTrueDuplicate_two_entities (s : string) (records : list SlugItem) :
  Search.isTrueDuplicate (s, records) = true <->
  exists r1 r2, In r1 records /\ In r2 records /\ codename r1 <> codename r2.
Proof.
  unfold Search.isTrueDuplicate. simpl. rewrite Nat.ltb_lt, newSet_two. split.
  - intros (a & b & Ha & Hb & Hne).
    apply in_map_iff in Ha. destruct Ha as (r1 & <- & H1).
    apply in_map_iff in Hb. destruct Hb as (r2 & <- & H2).
    now exists r1, r2.
  - intros (r1 & r2 & H1 & H2 & Hne).
    exists (codename r1), (codename r2). repeat split; auto using in_map.
Qed.

(** Whatever [findTrueDuplicates] returns comes from entries that pass the
    test, in index order, each grouped by [groupItemsByCodename]. *)
Lemma findTrueDuplicates_returned (slugMap : JS.Store (list SlugItem)) groups :
  Search.findTrueDuplicates slugMap = Returned groups ->
  map dg_slug groups = map fst (filter Search.isTrueDuplicate slugMap)
  /\ forall g, In g groups ->
       exists records,
         In (dg_slug g, records) slugMap
         /\ Search.isTrueDuplicate (dg_slug g, records) = true
         /\ Search.groupItemsByCodename records = Returned (dg_items g).
Proof.
  unfold Search.findTrueDuplicates. intros H. apply mapThrowing_Forall2 in H.
  assert (Hsub : forall en, In en (filter Search.isTrueDuplicate slugMap) ->
                   In en slugMap /\ Search.isTrueDuplicate en = true)
    by (intros en; apply filter_In).
  induction H as [|[s records] g ens gs Hg _ IH]; simpl.
  - split; [reflexivity | contradiction].
  - destruct IH as [IH1 IH2]; [intros en Hen; apply Hsub; now right|].
    simpl in Hg. destruct (Search.groupItemsByCodename records) as [rows|] eqn:E; [|discriminate].
    simpl in Hg. injection Hg as <-. simpl. split; [now f_equal|].
    intros g [<-|Hin]; [|now apply IH2]. simpl.
    exists records. destruct (Hsub (s, records)) as [? ?]; [now left|]. auto.
Qed.

(** It returns whenever the records of the entries that pass the test carry
    no codename that names a member of [Object.prototype]. *)
Lemma findTrueDuplicates_returns (slugMap : JS.Store (list SlugItem)) :
  (forall s records, In (s, records) slugMap ->
     Search.isTrueDuplicate (s, records) = true ->
     existsb JS.isInherited (map codename records) = false) ->
  exists groups, Search.findTrueDuplicates slugMap = Returned groups.
Proof.
  intros Hsafe. unfold Search.findTrueDuplicates. apply mapThrowing_total.
  intros [s records] Hin. apply filter_In in Hin. destruct Hin as [Hin Hdup]. simpl.
  destruct (groupItemsByCodename_rows records (Hsafe s records Hin Hdup)) as (rows & -> & _).
  simpl. eauto.
Qed.

(** X15.  On an index with pairwise distinct slugs in which the records of the
    entries with two or more codenames carry no codename that names a member
    of [Object.prototype], the classifier returns, and it reports exactly the
    slugs shared by at least two distinct codenames. *)
Lemma findTrueDuplicates_classifies (slugMap : JS.Store (list SlugItem)) :
  NoDup (map fst slugMap) ->
  (forall s records, In (s, records) slugMap ->
     Search.isTrueDuplicate (s, records) = true ->
     existsb JS.isInherited (map codename records) = false) ->
  exists groups,
    Search.findTrueDuplicates slugMap = Returned groups
    /\ forall s records, In (s, records) slugMap ->
         (In s (map dg_slug groups) <-> 2 <= List.length (distinctCodenames records)).
Proof.
  intros Hnd Hsafe. destruct (findTrueDuplicates_returns slugMap Hsafe) as [groups H].
  exists groups. split; [exact H|].
  destruct (findTrueDuplicates_returned slugMap groups H) as [Hslugs _].
  intros s records Hin. rewrite Hslugs, <- isTrueDuplicate_iff. split.
  - intros Hs. apply in_map_iff in Hs. destruct Hs as ([s' records'] & E & Hf).
    simpl in E. subst s'. apply filter_In in Hf. destruct Hf as [Hin' Hdup].
    assert (records' = records).
    { apply (In_get slugMap s records' Hnd) in Hin'.
      apply (In_get slugMap s records Hnd) in Hin. congruence. }
    subst. exact Hdup.
  - intros Hdup. apply in_map_iff. exists (s, records). split; [reflexivity|].
    apply filter_In. now split.
Qed.

(** A slug whose records all share one codename is never reported, on any
    input. *)
Lemma single_codename_never_reported (slugMap : JS.Store (list SlugItem)) groups s records :
  NoDup (map fst slugMap) ->
  Search.findTrueDuplicates slugMap = Returned groups ->
  In (s, records) slugMap ->
  (forall r1 r2, In r1 records -> In r2 records -> codename r1 = codename r2) ->
  ~ In s (map dg_slug groups).
Proof.
  intros Hnd H Hin Hone Hs.
  destruct (findTrueDuplicates_returned slugMap groups H) as [_ Hg].
  apply in_map_iff in Hs. destruct Hs as (g & <- & Hgin).
  destruct (Hg g Hgin) as (records' & Hin' & Hdup & _).
  assert (records' = records).
  { apply (In_get slugMap _ records' Hnd) in Hin'.
    apply (In_get slugMap _ records Hnd) in Hin. congruence. }
  subst. apply isTrueDuplicate_two_entities in Hdup.
  destruct Hdup as (r1 & r2 & H1 & H2 & Hne). apply Hne. now apply Hone.
Qed.

(** C1.  The slug [contact] is shared by two distinct codenames, one of them
    [constructor]: the entry passes the test of the classifier, but grouping it
    throws, so [findTrueDuplicates] reports nothing and [findDuplicateSlugs]
    answers with an error and an empty list of duplicates. *)
Theorem findTrueDuplicates_loses_inherited_codename :
  In ("contact", [constructorPage; articlePage]) collidingIndex
  /\ List.length (distinctCodenames [constructorPage; articlePage]) = 2
  /\ Search.isTrueDuplicate ("contact", [constructorPage; articlePage]) = true
  /\ Search.findTrueDuplicates collidingIndex = Thrown Search.pushIsNotAFunction
  /\ Search.findDuplicateSlugs exampleConfig collidingClient (Some ["en"]) [] =
     ([ItemsAll "en" ["url_slug"; "slug"]],
      Returned {| duplicates := []; dr_totalItems := None; uniqueSlugs := None;
                  dr_error := Some "Unexpected error: acc[item.codename].push is not a function" |}).
Proof.
  split; [now left|]. repeat split.
Qed.

(** C3.  On the records of a slug shared by the codenames [constructor] and
    [article_b], the grouper produces no row at all: reading
    [acc["constructor"]] on the empty object yields the inherited constructor,
    and calling its missing [push] throws.  With any other codename in place
    of [constructor] the two rows are produced. *)
Theorem groupItemsByCodename_throws_on_constructor :
  List.length (distinctCodenames [constructorPage; articlePage]) = 2
  /\ Search.groupItemsByCodename [constructorPage; articlePage] =
     Thrown Search.pushIsNotAFunction
  /\ Search.groupItemsByCodename
       [record "Constructor" "constructor_page" "en"; articlePage] =
     Returned [record "Constructor" "constructor_page" "en"; articlePage].
Proof. repeat split. Qed.

(** ** Languages of a row *)

Lemma NoDup_languages_of_codename (records : list SlugItem) (c : string) :
  NoDup (map pairOf records) -> NoDup (map language (withCodename c records)).
Proof.
  induction records as [|r records IH]; simpl; intros H; [constructor|].
  inversion H as [|? ? Hnot Hnd]; subst.
  destruct (String.eqb (codename r) c) eqn:E; simpl; [|now apply IH].
  constructor; [|now apply IH].
  intros Hin. apply Hnot. apply in_map_iff in Hin. destruct Hin as (r' & Hl & Hr').
  apply filter_In in Hr'. destruct Hr' as [Hr' E'].
  apply String.eqb_eq in E, E'. apply in_map_iff. exists r'. split; [|assumption].
  unfold pairOf. congruence.
Qed.

(** C4, as stated, fails: with the languages [en] and [de] configured and
    two articles that exist in English only, each article is fetched twice as
    its English variant, and its row reads [en, en]. *)
Lemma languages_can_repeat :
  ~ (forall (cfg : AppConfig) (client : Client) (langs : option (list string))
            (log log' : list Query) (r : DuplicateResult) (g : DuplicateGroup) (e : SlugItem),
       Search.findDuplicateSlugs cfg client langs log = (log', Returned r) ->
       In g (duplicates r) -> In e (dg_items g) -> NoDup (languageTags e)).
Proof.
  intros H.
  specialize (H exampleConfig fallbackClient None [] _ _
                {| dg_slug := "contact";
                   dg_items := [record "A" "article_a" "en, en"; record "B" "article_b" "en, en"] |}
                (record "A" "article_a" "en, en") eq_refl).
  assert (Hnd : NoDup ["en"; "en"]) by (apply H; simpl; auto).
  inversion Hnd as [|? ? Hnot _]. apply Hnot. now left.
Qed.

(** C4 (amended).  In every group [findTrueDuplicates] returns, the languages
    value of a row is the language tags of the slug's records with the row's
    codename, one entry per record in index order, joined by a comma and a
    space; the entries are pairwise distinct whenever no (codename, language)
    pair occurs twice among the records of the slug. *)
Theorem row_languages_list_the_records
    (slugMap : JS.Store (list SlugItem)) (groups : list DuplicateGroup)
    (g : DuplicateGroup) (e : SlugItem) :
  Search.findTrueDuplicates slugMap = Returned groups ->
  In g groups -> In e (dg_items g) ->
  exists records,
    In (dg_slug g, records) slugMap
    /\ language e = JS.join ", " (map language (withCodename (codename e) records))
    /\ (NoDup (map pairOf records) ->
        NoDup (map language (withCodename (codename e) records))).
Proof.
  intros H Hg He.
  destruct (findTrueDuplicates_returned slugMap groups H) as [_ Hgroups].
  destruct (Hgroups g Hg) as (records & Hin & _ & Hrows).
  exists records. split; [exact Hin|]. split; [|apply NoDup_languages_of_codename].
  pose proof Hrows as Hout. rewrite groupItemsByCodename_outcome in Hout.
  destruct (existsb JS.isInherited (map codename records)) eqn:Hsafe; [discriminate|].
  destruct (groupItemsByCodename_rows records Hsafe) as (rows & Hrows' & _ & Hrow).
  assert (rows = dg_items g) by congruence. subst rows.
  destruct (Hrow e He) as (first & rest & -> & _ & _ & Hl). exact Hl.
Qed.

Lemma row_languages_list_the_records_witness :
  exists records,
    In ("contact", records) exampleIndex
    /\ "en, de" = JS.join ", " (map language (withCodename "article_a" records))
    /\ (NoDup (map pairOf records) ->
        NoDup (map language (withCodename "article_a" records))).
Proof.
  apply (row_languages_list_the_records exampleIndex
           [{| dg_slug := "contact";
               dg_items := [record "A" "article_a" "en, de"; record "B" "article_b" "en"] |}]
           {| dg_slug := "contact";
              dg_items := [record "A" "article_a" "en, de"; record "B" "article_b" "en"] |}
           (record "A" "article_a" "en, de")).
  - reflexivity.
  - simpl. left. reflexivity.
  - simpl. left. reflexivity.
Defined.

(** ** Deduplication on (codename, language) *)

Section RemoveDuplicates.

Context {T : Type} (codenameOf languageOf : T -> string).

Local Abbreviation same := (Api.sameKey codenameOf languageOf).
Local Abbreviation key := (pairKey codenameOf languageOf).

Lemma sameKey_iff (x y : T) : same x y = true <-> key y = key x.
Proof.
  unfold Api.sameKey, pairKey. rewrite andb_true_iff, !String.eqb_eq.
  split; [intros [-> ->]; reflexivity | intros [= -> ->]; auto].
Qed.

Lemma sameKey_refl (x : T) : same x x = true.
Proof. now apply sameKey_iff. Qed.

Lemma sameKey_congr (x x' y : T) : key x = key x' -> same x y = same x' y.
Proof.
  intros E. destruct (same x y) eqn:E1, (same x' y) eqn:E2; try reflexivity.
  - apply sameKey_iff in E1. rewrite E in E1. apply sameKey_iff in E1. congruence.
  - apply sameKey_iff in E2. rewrite <- E in E2. apply sameKey_iff in E2. congruence.
Qed.

Lemma existsb_sameKey (x : T) (l : list T) :
  existsb (same x) l = true <-> In (key x) (map key l).
Proof.
  rewrite existsb_exists, in_map_iff. split.
  - intros (y & Hy & E). exists y. split; [now apply sameKey_iff | assumption].
  - intros (y & E & Hy). exists y. split; [assumption | now apply sameKey_iff].
Qed.

(** The first match of [findIndex] sits right after a prefix without match. *)
Lemma findIndexFrom_prefix (p : T -> bool) (pre : list T) (x : T) (r : list T) (n : nat) :
  p x = true ->
  JS.isIndex (n + List.length pre) (JS.findIndexFrom n p (pre ++ x :: r)) =
  negb (existsb p pre).
Proof.
  intros Hx. revert n. induction pre as [|y pre IH]; intros n; simpl.
  - rewrite Hx. simpl. rewrite Nat.add_0_r. apply Nat.eqb_refl.
  - destruct (p y) eqn:Hy; simpl.
    + apply Nat.eqb_neq. lia.
    + rewrite <- (IH (S n)). f_equal. lia.
Qed.

(** The index test of [removeDuplicateItems] keeps an element exactly when no
    earlier element has its key. *)
Lemma filterFrom_keepNew (pre suf : list T) :
  JS.filterFrom (List.length pre)
    (fun item index => JS.isIndex index (JS.findIndex (same item) (pre ++ suf))) suf =
  keepNew same pre suf.
Proof.
  revert pre. induction suf as [|x suf IH]; intros pre; simpl; [reflexivity|].
  pose proof (findIndexFrom_prefix (same x) pre x suf 0 (sameKey_refl x)) as Hp.
  simpl in Hp. unfold JS.findIndex at 1. rewrite Hp.
  specialize (IH (pre ++ [x])).
  rewrite length_app, Nat.add_comm in IH. simpl in IH.
  rewrite <- app_assoc in IH. simpl in IH.
  destruct (existsb (same x) pre); simpl; now rewrite IH.
Qed.

Lemma removeDuplicateItems_keepNew (items : list T) :
  Api.removeDuplicateItems codenameOf languageOf items = keepNew same [] items.
Proof. apply (filterFrom_keepNew [] items). Qed.

Lemma keepNew_In (seen l : list T) (y : T) : In y (keepNew same seen l) -> In y l.
Proof.
  revert seen. induction l as [|x l IH]; intros seen; simpl; [tauto|].
  destruct (existsb (same x) seen); simpl; intros H.
  - right. eapply IH, H.
  - destruct H as [->|H]; [now left | right; eapply IH, H].
Qed.

(** Among the kept elements, those with the key of [x]: none if the key was
    already seen, else the first element of the list with that key. *)
Lemma keepNew_filter (x : T) (l seen : list T) :
  filter (same x) (keepNew same seen l) =
  if existsb (same x) seen then []
  else match find (same x) l with Some y => [y] | None => [] end.
Proof.
  revert seen. induction l as [|x0 l IH]; intros seen; simpl.
  - now destruct (existsb (same x) seen).
  - assert (Hseen : existsb (same x) (seen ++ [x0]) = existsb (same x) seen || same x x0).
    { rewrite existsb_app. simpl. now rewrite orb_false_r. }
    destruct (same x x0) eqn:E.
    + assert (Hcongr : existsb (same x0) seen = existsb (same x) seen).
      { apply sameKey_iff in E. clear -E. induction seen as [|z seen IH]; simpl; [reflexivity|].
        rewrite IH. f_equal. now apply sameKey_congr. }
      rewrite Hcongr.
      destruct (existsb (same x) seen) eqn:Es; simpl.
      * rewrite IH, Hseen. reflexivity.
      * rewrite E, IH, Hseen. reflexivity.
    + rewrite orb_false_r in Hseen.
      destruct (existsb (same x0) seen); simpl; rewrite ?E, IH, Hseen; reflexivity.
Qed.

Lemma keepNew_keys_NoDup (l seen : list T) :
  NoDup (map key (keepNew same seen l))
  /\ forall y, In y (keepNew same seen l) -> ~ In (key y) (map key seen).
Proof.
  revert seen. induction l as [|x l IH]; intros seen; simpl.
  - split; [constructor | contradiction].
  - destruct (IH (seen ++ [x])) as [IH1 IH2].
    assert (Hless : forall y, In y (keepNew same (seen ++ [x]) l) ->
                      ~ In (key y) (map key seen) /\ key y <> key x).
    { intros y Hy. specialize (IH2 y Hy). rewrite map_app, in_app_iff in IH2. simpl in IH2.
      split; [tauto | intros E; apply IH2; right; left; congruence]. }
    destruct (existsb (same x) seen) eqn:E; simpl.
    + split; [assumption | intros y Hy; now apply Hless].
    + split.
      * constructor; [|assumption]. intros Hin. apply in_map_iff in Hin.
        destruct Hin as (y & Ey & Hy). now apply (Hless y Hy).
      * intros y [<-|Hy]; [|now apply Hless].
        intros Hin. apply existsb_sameKey in Hin. congruence.
Qed.

Lemma keepNew_id (l seen : list T) :
  NoDup (map key l) -> (forall y, In y l -> ~ In (key y) (map key seen)) ->
  keepNew same seen l = l.
Proof.
  revert seen. induction l as [|x l IH]; intros seen Hnd Hseen; simpl; [reflexivity|].
  inversion Hnd as [|? ? Hnot Hnd']; subst.
  assert (E : existsb (same x) seen = false).
  { destruct (existsb (same x) seen) eqn:E; [|reflexivity].
    apply existsb_sameKey in E. exfalso. apply (Hseen x); [now left | assumption]. }
  rewrite E. f_equal. apply IH; [assumption|].
  intros y Hy. rewrite map_app, in_app_iff. simpl. intros [Hin|[Heq|[]]].
  - apply (Hseen y); [now right | assumption].
  - apply Hnot. rewrite Heq. now apply in_map.
Qed.

(** No two kept records share a (codename, language) pair. *)
Lemma removeDuplicateItems_NoDup (items : list T) :
  NoDup (map key (Api.removeDuplicateItems codenameOf languageOf items)).
Proof. rewrite removeDuplicateItems_keepNew. apply keepNew_keys_NoDup. Qed.

(** Only records of the input are kept. *)
Lemma removeDuplicateItems_In (items : list T) (y : T) :
  In y (Api.removeDuplicateItems codenameOf languageOf items) -> In y items.
Proof. rewrite removeDuplicateItems_keepNew. apply keepNew_In. Qed.

(** For the key of any input record, exactly one record is kept: the first
    one of the input with that key. *)
Lemma removeDuplicateItems_first (items : list T) (x : T) :
  In x items ->
  exists y,
    find (same x) items = Some y
    /\ filter (same x) (Api.removeDuplicateItems codenameOf languageOf items) = [y].
Proof.
  intros Hin. rewrite removeDuplicateItems_keepNew, keepNew_filter. simpl.
  destruct (find (same x) items) as [y|] eqn:E; [eauto|].
  exfalso. pose proof (find_none _ _ E x Hin) as Hx. now rewrite sameKey_refl in Hx.
Qed.

(** Deduplicating twice changes nothing. *)
Lemma removeDuplicateItems_idempotent (items : list T) :
  Api.removeDuplicateItems codenameOf languageOf
    (Api.removeDuplicateItems codenameOf languageOf items) =
  Api.removeDuplicateItems codenameOf languageOf items.
Proof.
  rewrite (removeDuplicateItems_keepNew (Api.removeDuplicateItems _ _ items)).
  apply keepNew_id; [apply removeDuplicateItems_NoDup | auto].
Qed.

(** A list without repeated key is left as it is. *)
Lemma removeDuplicateItems_id (items : list T) :
  NoDup (map key items) -> Api.removeDuplicateItems codenameOf languageOf items = items.
Proof.
  intros H. rewrite removeDuplicateItems_keepNew. apply keepNew_id; auto.
Qed.

End RemoveDuplicates.

(** ** The lookup strategies *)

Section Strategies.

Variable appConfig : AppConfig.
Variable client : Client.
Hypothesis valid : Config.isConfigValid appConfig = true.

(** A guarded lookup never throws: a rejected request contributes nothing. *)
Lemma lookupByField_run (field target lang : string) (allItems : list ContentItem)
    (log : list Query) :
  Api.lookupByField client field target lang allItems log =
  (log ++ [ItemsEquals field target lang],
   Returned (allItems ++
             contribution (client (List.length log) (ItemsEquals field target lang)) lang)).
Proof.
  unfold Api.lookupByField, tryCatch, bind, toAllPromise, ret, contribution.
  destruct (client (List.length log) (ItemsEquals field target lang)); [reflexivity|].
  now rewrite app_nil_r.
Qed.

Lemma forOf_lookups (target : string) (langs : list string) :
  forall (allItems : list ContentItem) (log : list Query),
    forOf langs
      (fun lang allItems =>
         bind (Api.lookupByField client "elements.url_slug" target lang allItems)
              (fun allItems => Api.lookupByField client "elements.slug" target lang allItems))
      allItems log =
    (log ++ flat_map (lookupsFor target) langs,
     Returned (allItems ++
               contributions client (List.length log) (flat_map (lookupsFor target) langs))).
Proof.
  induction langs as [|lang langs IH]; intros allItems log; simpl.
  - unfold ret. now rewrite !app_nil_r.
  - unfold bind at 1. unfold bind at 1. rewrite !lookupByField_run. rewrite IH.
    rewrite !length_app. simpl. rewrite <- !app_assoc. simpl.
    replace (List.length log + 1) with (S (List.length log)) by lia.
    replace (S (List.length log) + 1) with (S (S (List.length log))) by lia.
    reflexivity.
Qed.

(** [searchWithDeliveryApi] issues its six lookups whatever their outcomes and
    succeeds with the deduplicated contributions of those that resolved. *)
Lemma searchWithDeliveryApi_run (target : string) (log : list Query) :
  let found :=
    Api.removeDuplicateItems ci_codename ci_language
      (contributions client (List.length log) (deliveryQueries target)) in
  Api.searchWithDeliveryApi appConfig client target log =
  (log ++ deliveryQueries target,
   Returned {| success := true; items := found; error := None; method := "delivery-sdk";
               totalItems := Some (List.length found); exactMatches := None;
               allSlugsCount := None; note := None |}).
Proof.
  unfold Api.searchWithDeliveryApi. rewrite valid. cbn [negb].
  unfold tryCatch. unfold bind at 1. cbv beta. rewrite forOf_lookups. reflexivity.
Qed.

(** [searchAllItemsDeliveryApi] always returns a result; a failure result
    carries no item and an error message. *)
Lemma searchAllItemsDeliveryApi_returns (target : string) (log : list Query) :
  exists log' r,
    Api.searchAllItemsDeliveryApi appConfig client target log = (log', Returned r)
    /\ (success r = false -> items r = [] /\ error r <> None)
    /\ (forall x, In x (items r) -> ci_slug x = target).
Proof.
  unfold Api.searchAllItemsDeliveryApi. rewrite valid. cbn [negb].
  unfold tryCatch. unfold bind at 1. cbv beta.
  match goal with
  | |- context [forOf ?l ?b ?a ?g] => destruct (forOf l b a g) as [log' [allItems|e]]
  end.
  - unfold ret. eexists _, _. split; [reflexivity|]. simpl. split; [discriminate|].
    intros x Hx. apply filter_In in Hx. now apply String.eqb_eq.
  - unfold ret. eexists _, _. split; [reflexivity|]. simpl. split; [|contradiction].
    intros _. split; [reflexivity | discriminate].
Qed.

(** When its first request is rejected it stops there and reports the
    failure. *)
Lemma searchAllItemsDeliveryApi_rejected (target e : string) (log : list Query) :
  client (List.length log) (ItemsAll "de" ["url_slug"; "slug"]) = Thrown e ->
  Api.searchAllItemsDeliveryApi appConfig client target log =
  (log ++ [ItemsAll "de" ["url_slug"; "slug"]],
   Returned (Api.createErrorResult e "delivery-sdk-all")).
Proof.
  intros H. unfold Api.searchAllItemsDeliveryApi. rewrite valid. cbn [negb].
  unfold tryCatch. unfold bind at 1. cbv beta. simpl forOf.
  unfold bind at 1. unfold bind at 1.
  unfold toAllPromise. now rewrite H.
Qed.

(** [searchSpecificSlug] runs the strategies one after the other and merges
    whatever they returned. *)
Lemma searchSpecificSlug_run (target : string) (log log1 log2 : list Query)
    (viaDelivery viaAllItems : ApiResult) :
  Api.searchWithDeliveryApi appConfig client target log = (log1, Returned viaDelivery) ->
  Api.searchAllItemsDeliveryApi appConfig client target log1 = (log2, Returned viaAllItems) ->
  let viaManagement :=
    if JS.truthy (managementApiKey appConfig) then Some managementPlaceholder else None in
  let uniqueItems :=
    Api.removeDuplicateItems ci_codename ci_language
      (items viaDelivery ++ items viaAllItems ++ Search.itemsOrEmpty viaManagement) in
  Search.searchSpecificSlug appConfig client target log =
  (log2,
   Returned {| merged := {| success := true; items := uniqueItems; error := None;
                            method := "combined-sdk";
                            totalItems := Some (List.length uniqueItems);
                            exactMatches := None; allSlugsCount := None; note := None |};
               deliveryApi := Some viaDelivery;
               deliveryApiAllItems := Some viaAllItems;
               managementApi := viaManagement |}).
Proof.
  intros Hd Ha. unfold Search.searchSpecificSlug. rewrite valid. cbn [negb].
  unfold tryCatch. unfold bind at 1. cbv beta. rewrite Hd. unfold bind at 1. rewrite Ha.
  destruct (JS.truthy (managementApiKey appConfig)); reflexivity.
Qed.

End Strategies.

(** ** The multi-strategy search merger *)

(** Every call of [searchSpecificSlug] returns: with the failure result and no
    request when the configuration is invalid, else with the merge of what
    the strategies returned. *)
Lemma searchSpecificSlug_outcome (cfg : AppConfig) (client : Client) (target : string)
    (log : list Query) :
  exists log' r,
    Search.searchSpecificSlug cfg client target log = (log', Returned r)
    /\ success (merged r) = Config.isConfigValid cfg
    /\ managementApi r =
       (if Config.isConfigValid cfg && JS.truthy (managementApiKey cfg)
        then Some managementPlaceholder else None)
    /\ items (merged r) =
       Api.removeDuplicateItems ci_codename ci_language
         (Search.itemsOrEmpty (deliveryApi r) ++ Search.itemsOrEmpty (deliveryApiAllItems r)
          ++ Search.itemsOrEmpty (managementApi r)).
Proof.
  destruct (Config.isConfigValid cfg) eqn:valid.
  - pose proof (searchWithDeliveryApi_run cfg client valid target log) as Hd.
    destruct (searchAllItemsDeliveryApi_returns cfg client valid target
                (log ++ deliveryQueries target)) as (log2 & a & Ha & _).
    cbv zeta in Hd.
    pose proof (searchSpecificSlug_run cfg client valid target log _ log2 _ a Hd Ha) as Hs.
    cbv zeta in Hs. eexists _, _. split; [exact Hs|]. simpl. auto.
  - exists log, (Search.failedSearch Search.missingProjectId "none").
    unfold Search.searchSpecificSlug. rewrite valid. simpl. auto.
Qed.

(** C5.  In the result of a search, for every record [x] found by some
    strategy, the merged list holds exactly one record with the codename and
    language of [x], and it is the first record with that key in the
    concatenation of the strategies' lists, whatever the other fields of the
    later ones. *)
Theorem merge_keeps_first_record_of_each_key
    (cfg : AppConfig) (client : Client) (target : string) (log log' : list Query)
    (r : SearchResult) (x : ContentItem) :
  Search.searchSpecificSlug cfg client target log = (log', Returned r) ->
  let allItems :=
    Search.itemsOrEmpty (deliveryApi r) ++ Search.itemsOrEmpty (deliveryApiAllItems r)
    ++ Search.itemsOrEmpty (managementApi r) in
  In x allItems ->
  exists first,
    find (fun y => String.eqb (ci_codename y) (ci_codename x)
                   && String.eqb (ci_language y) (ci_language x)) allItems = Some first
    /\ filter (fun y => String.eqb (ci_codename y) (ci_codename x)
                        && String.eqb (ci_language y) (ci_language x))
              (items (merged r)) = [first]
    /\ NoDup (map keyOf (items (merged r))).
Proof.
  intros H allItems Hin.
  destruct (searchSpecificSlug_outcome cfg client target log) as (log2 & r2 & H2 & _ & _ & Hitems).
  assert (r2 = r) by congruence. subst r2. fold allItems in Hitems. rewrite Hitems.
  destruct (removeDuplicateItems_first ci_codename ci_language allItems x Hin)
    as (first & Hfind & Hfilter).
  exists first. repeat split; try assumption.
  apply (removeDuplicateItems_NoDup ci_codename ci_language).
Qed.

Lemma merge_keeps_first_record_of_each_key_witness :
  exists first,
    find (fun y => String.eqb (ci_codename y) "contact_page" && String.eqb (ci_language y) "en")
         [contactIn "en" url_slug_field; contactIn "en" slug_field] = Some first
    /\ filter (fun y => String.eqb (ci_codename y) "contact_page"
                        && String.eqb (ci_language y) "en")
              [contactIn "en" url_slug_field] = [first]
    /\ NoDup (map keyOf [contactIn "en" url_slug_field]).
Proof.
  exact (merge_keeps_first_record_of_each_key exampleConfig provenanceClient "contact" []
           _ _ (contactIn "en" slug_field) eq_refl (or_intror (or_introl eq_refl))).
Defined.

Lemma find_app_Some {T} (p : T -> bool) (l l' : list T) (y : T) :
  find p l = Some y -> find p (l ++ l') = Some y.
Proof.
  induction l as [|x l IH]; simpl; [discriminate|].
  destruct (p x); [trivial | exact IH].
Qed.

(** In a list without repeated key, the first record with the key of a member
    is that member. *)
Lemma find_own_key (l : list ContentItem) (x : ContentItem) :
  NoDup (map keyOf l) -> In x l ->
  find (Api.sameKey ci_codename ci_language x) l = Some x.
Proof.
  induction l as [|z l IH]; simpl; intros Hnd Hin; [contradiction|].
  inversion Hnd as [|? ? Hnot Hnd']; subst.
  destruct (Api.sameKey ci_codename ci_language x z) eqn:E.
  - destruct Hin as [->|Hin]; [reflexivity|]. exfalso. apply Hnot.
    apply (sameKey_iff ci_codename ci_language) in E.
    change (keyOf z) with (pairKey ci_codename ci_language z). rewrite E.
    apply (in_map keyOf l x Hin).
  - destruct Hin as [->|Hin]; [|now apply IH].
    now rewrite (sameKey_refl ci_codename ci_language) in E.
Qed.

(** With [flakyClient] the all-items strategy fails and the lookups on
    [url_slug] are rejected; the three records found by the lookups on [slug]
    still make up the merged list. *)
Example flaky_search :
  Search.searchSpecificSlug exampleConfig flakyClient "contact" [] =
  (deliveryQueries "contact" ++ [ItemsAll "de" ["url_slug"; "slug"]],
   Returned
     {| merged :=
          {| success := true;
             items := [contactIn "de" slug_field; contactIn "en" slug_field;
                       contactIn "zh" slug_field];
             error := None; method := "combined-sdk"; totalItems := Some 3;
             exactMatches := None; allSlugsCount := None; note := None |};
        deliveryApi :=
          Some {| success := true;
                  items := [contactIn "de" slug_field; contactIn "en" slug_field;
                            contactIn "zh" slug_field];
                  error := None; method := "delivery-sdk"; totalItems := Some 3;
                  exactMatches := None; allSlugsCount := None; note := None |};
        deliveryApiAllItems := Some (Api.createErrorResult "Network Error" "delivery-sdk-all");
        managementApi := None |}).
Proof. reflexivity. Qed.

(** ** Detection runs *)

Lemma forOf_no_items (client : Client) (langs : list string) :
  forall (acc : list PageItem) (log : list Query),
    (forall n lang, In lang langs -> client n (pagesIn lang) = Returned []) ->
    forOf langs
      (fun lang allItems =>
         bind (toAllPromise client (ItemsAll lang ["url_slug"; "slug"]))
              (fun response => ret (allItems ++ filter Api.hasSlug response)))
      acc log = (log ++ map pagesIn langs, Returned acc).
Proof.
  induction langs as [|lang langs IH]; intros acc log Hempty; simpl.
  - unfold ret. now rewrite app_nil_r.
  - unfold bind at 1. unfold bind at 1. unfold toAllPromise.
    change (ItemsAll lang ["url_slug"; "slug"]) with (pagesIn lang).
    rewrite (Hempty (List.length log) lang) by now left.
    unfold ret at 1. simpl filter. rewrite app_nil_r.
    rewrite IH by (intros n l Hl; apply Hempty; now right).
    now rewrite <- app_assoc.
Qed.

(** Every detection run returns a result; a result with the error field set
    has an empty list of duplicates and no counts. *)
Lemma findDuplicateSlugs_outcome (cfg : AppConfig) (client : Client)
    (langs : option (list string)) (log : list Query) :
  exists log' r,
    Search.findDuplicateSlugs cfg client langs log = (log', Returned r)
    /\ (dr_error r <> None -> exists message, r = failedDetection message).
Proof.
  unfold Search.findDuplicateSlugs.
  destruct (Config.isConfigValid cfg); cbn [negb].
  2:{ eexists _, _. split; [reflexivity|]. intros _. eexists. reflexivity. }
  unfold tryCatch. unfold bind at 1.
  destruct (Search.fetchAllPageItemsWithSlugs cfg client _ log) as [log' [allItems|e]].
  - unfold bind, liftOutcome.
    destruct (Search.findTrueDuplicates (Search.buildSlugMap allItems)) as [groups|e].
    + eexists _, _. split; [reflexivity|]. simpl. congruence.
    + eexists _, _. split; [reflexivity|]. intros _. eexists. reflexivity.
  - eexists _, _. split; [reflexivity|]. intros _. eexists. reflexivity.
Qed.

(** C8.  When the project identifier is missing, both entry points return
    their failure result at once: the error field is set, the list is empty,
    [success] is false for the search, and the requests issued so far are
    unchanged, so the client was not called. *)
Theorem invalid_configuration_fails_without_fetch
    (cfg : AppConfig) (client : Client) (langs : option (list string)) (target : string)
    (log : list Query) :
  Config.isConfigValid cfg = false ->
  Search.findDuplicateSlugs cfg client langs log =
    (log, Returned {| duplicates := []; dr_totalItems := None; uniqueSlugs := None;
                      dr_error := Some Search.missingProjectId |})
  /\ Search.searchSpecificSlug cfg client target log =
       (log, Returned {| merged := {| success := false; items := [];
                                      error := Some Search.missingProjectId;
                                      method := "none"; totalItems := None;
                                      exactMatches := None; allSlugsCount := None;
                                      note := None |};
                         deliveryApi := None; deliveryApiAllItems := None;
                         managementApi := None |}).
Proof.
  intros invalid. unfold Search.findDuplicateSlugs, Search.searchSpecificSlug.
  rewrite invalid. split; reflexivity.
Qed.

Lemma invalid_configuration_fails_without_fetch_witness :
  Search.findDuplicateSlugs initialConfig collidingClient None [] =
    ([], Returned {| duplicates := []; dr_totalItems := None; uniqueSlugs := None;
                     dr_error := Some Search.missingProjectId |})
  /\ Search.searchSpecificSlug initialConfig collidingClient "contact" [] =
       ([], Returned {| merged := {| success := false; items := [];
                                     error := Some Search.missingProjectId;
                                     method := "none"; totalItems := None;
                                     exactMatches := None; allSlugsCount := None;
                                     note := None |};
                        deliveryApi := None; deliveryApiAllItems := None;
                        managementApi := None |}).
Proof.
  apply (invalid_configuration_fails_without_fetch initialConfig collidingClient None
           "contact" []).
  reflexivity.
Defined.

(** ** The slug extractor *)

(** C9.  Both places that extract the slug of a fetched item, [formatSDKItem]
    and the loop of [buildSlugMap], take the value of [url_slug] when it is
    non-empty and record [url_slug]; when [url_slug] is missing or holds the
    empty string they take the non-empty value of [slug] and record [slug]. *)
Theorem slug_comes_from_first_non_empty_field (item : PageItem) (lang : string) :
  (forall v, url_slug (elements item) = Some v -> v <> "" ->
     ci_slug (Api.formatSDKItem item lang) = v
     /\ ci_slugField (Api.formatSDKItem item lang) = url_slug_field
     /\ Search.buildSlugMap [item] =
        [(v, [{| name := JS.orDefault (sys_name (system item)) "Unknown";
                 codename := JS.orDefault (sys_codename (system item)) "unknown";
                 language := JS.orDefault (sys_language (system item)) "unknown";
                 slugField := url_slug_field |}])])
  /\ (forall w, url_slug (elements item) = None \/ url_slug (elements item) = Some "" ->
        slug (elements item) = Some w -> w <> "" ->
        ci_slug (Api.formatSDKItem item lang) = w
        /\ ci_slugField (Api.formatSDKItem item lang) = slug_field
        /\ Search.buildSlugMap [item] =
           [(w, [{| name := JS.orDefault (sys_name (system item)) "Unknown";
                    codename := JS.orDefault (sys_codename (system item)) "unknown";
                    language := JS.orDefault (sys_language (system item)) "unknown";
                    slugField := slug_field |}])]).
Proof.
  assert (Htruthy : forall s, s <> "" -> JS.truthy s = true)
    by (intros [|a s] H; [congruence | reflexivity]).
  split.
  - intros v Hv Hne. specialize (Htruthy v Hne).
    unfold Api.formatSDKItem, Search.buildSlugMap, Search.buildSlugMapStep, Search.slugItemOf,
      Api.slugValueOf, Api.slugFieldOf, JS.orOpt. simpl.
    rewrite Hv. simpl. rewrite !Htruthy. simpl. rewrite Htruthy, String.eqb_refl. auto.
  - intros w Hu Hw Hne. specialize (Htruthy w Hne).
    unfold Api.formatSDKItem, Search.buildSlugMap, Search.buildSlugMapStep, Search.slugItemOf,
      Api.slugValueOf, Api.slugFieldOf, JS.orOpt. simpl.
    destruct Hu as [-> | ->]; rewrite Hw; simpl; rewrite !Htruthy; simpl;
      rewrite ?Htruthy, String.eqb_refl; auto.
Qed.

Lemma slug_comes_from_first_non_empty_field_witness :
  ci_slug (Api.formatSDKItem (page "Contact" "contact_page" "en" (Some "") (Some "contact")) "en")
    = "contact"
  /\ ci_slugField
       (Api.formatSDKItem (page "Contact" "contact_page" "en" (Some "") (Some "contact")) "en")
     = slug_field
  /\ Search.buildSlugMap [page "Contact" "contact_page" "en" (Some "") (Some "contact")] =
     [("contact", [{| name := "Contact"; codename := "contact_page"; language := "en";
                      slugField := slug_field |}])].
Proof.
  apply (proj2 (slug_comes_from_first_non_empty_field
                  (page "Contact" "contact_page" "en" (Some "") (Some "contact")) "en")
               "contact").
  - right. reflexivity.
  - reflexivity.
  - discriminate.
Defined.

(** ** The management strategy *)

(** C10.  [searchWithManagementApi] issues no request and returns a success
    with no item; [searchSpecificSlug] carries its result only when the
    configuration is valid and a management API key is set, and the merged
    list is made of the records of the two delivery strategies alone. *)
Theorem management_strategy_contributes_nothing
    (cfg : AppConfig) (client : Client) (target : string) (log : list Query) :
  Api.searchWithManagementApi target log = (log, Returned managementPlaceholder)
  /\ success managementPlaceholder = true
  /\ items managementPlaceholder = []
  /\ exists log' r,
       Search.searchSpecificSlug cfg client target log = (log', Returned r)
       /\ managementApi r =
          (if Config.isConfigValid cfg && JS.truthy (managementApiKey cfg)
           then Some managementPlaceholder else None)
       /\ items (merged r) =
          Api.removeDuplicateItems ci_codename ci_language
            (Search.itemsOrEmpty (deliveryApi r)
             ++ Search.itemsOrEmpty (deliveryApiAllItems r)).
Proof.
  split; [reflexivity|]. split; [reflexivity|]. split; [reflexivity|].
  destruct (searchSpecificSlug_outcome cfg client target log)
    as (log' & r & H & _ & Hm & Hitems).
  exists log', r. split; [exact H|]. split; [exact Hm|].
  rewrite Hitems, Hm.
  destruct (Config.isConfigValid cfg && JS.truthy (managementApiKey cfg));
    simpl; now rewrite app_nil_r.
Qed.

(** With a management API key configured the placeholder is run and the
    merged list is unchanged. *)
Example keyed_search :
  exists log' r,
    Search.searchSpecificSlug keyedConfig provenanceClient "contact" [] = (log', Returned r)
    /\ managementApi r = Some managementPlaceholder
    /\ items (merged r) = [contactIn "en" url_slug_field].
Proof. eexists _, _. split; [reflexivity|]. split; reflexivity. Qed.

(** ** The grouper and the classifier on codenames that are safe keys *)

(** X14.  On the records of a true-duplicate slug none of whose codenames names
    a member of [Object.prototype], the grouper returns one row per distinct
    codename, at least two, each with the name and slug field of the first
    record of its codename and the joined language tags of all of them. *)
Corollary grouper_builds_one_row_per_codename (s : string) (records : list SlugItem) :
  Search.isTrueDuplicate (s, records) = true ->
  existsb JS.isInherited (map codename records) = false ->
  exists entities,
    Search.groupItemsByCodename records = Returned entities
    /\ List.length entities = List.length (distinctCodenames records)
    /\ 2 <= List.length entities
    /\ NoDup (map codename entities)
    /\ forall e, In e entities ->
         exists first rest,
           withCodename (codename e) records = first :: rest
           /\ name e = name first
           /\ slugField e = slugField first
           /\ language e = JS.join ", " (map language (first :: rest)).
Proof.
  intros Hdup Hsafe.
  destruct (groupItemsByCodename_rows records Hsafe) as (entities & H & P & Hrows).
  exists entities. split; [exact H|].
  pose proof (groupItemsByCodename_count records entities H) as Hcount.
  split; [exact Hcount|]. split; [|split; [|exact Hrows]].
  - rewrite Hcount. now apply (isTrueDuplicate_iff s).
  - apply (Permutation_NoDup (l := JS.newSet (map codename records)));
      [now symmetry | apply newSet_NoDup].
Qed.

Example grouper_on_example_index :
  Search.findTrueDuplicates exampleIndex =
  Returned [{| dg_slug := "contact";
               dg_items := [record "A" "article_a" "en, de"; record "B" "article_b" "en"] |}].
Proof. reflexivity. Qed.

(** ** Further properties of the deduplication *)

Section RemoveDuplicatesFurther.

Context {T : Type} (codenameOf languageOf : T -> string).

Local Abbreviation same := (Api.sameKey codenameOf languageOf).
Local Abbreviation key := (pairKey codenameOf languageOf).

Lemma keepNew_length (l seen : list T) :
  List.length (keepNew same seen l) <= List.length l.
Proof.
  revert seen. induction l as [|x l IH]; intros seen; simpl; [lia|].
  specialize (IH (seen ++ [x])). destruct (existsb (same x) seen); simpl; lia.
Qed.

(** X1.  [removeDuplicateItems] leaves a list as it is exactly when no two of
    its records share a (codename, language) pair; in particular applying it
    to its own result changes nothing. *)
Theorem removeDuplicateItems_fixpoints (items : list T) :
  (Api.removeDuplicateItems codenameOf languageOf items = items <->
   NoDup (map key items))
  /\ Api.removeDuplicateItems codenameOf languageOf
       (Api.removeDuplicateItems codenameOf languageOf items) =
     Api.removeDuplicateItems codenameOf languageOf items.
Proof.
  split; [split|].
  - intros H. rewrite <- H. apply removeDuplicateItems_NoDup.
  - apply removeDuplicateItems_id.
  - apply removeDuplicateItems_idempotent.
Qed.

(** X2.  [removeDuplicateItems] keeps only records of its input, keeps at
    least one record for every (codename, language) pair of the input, and
    never returns more records than it was given. *)
Theorem removeDuplicateItems_keeps_every_key (items : list T) :
  (forall y, In y (Api.removeDuplicateItems codenameOf languageOf items) -> In y items)
  /\ (forall k, In k (map key (Api.removeDuplicateItems codenameOf languageOf items)) <->
                In k (map key items))
  /\ List.length (Api.removeDuplicateItems codenameOf languageOf items) <= List.length items.
Proof.
  split; [apply removeDuplicateItems_In|]. split.
  - intros k. rewrite !in_map_iff. split.
    + intros (y & E & Hy). exists y. split; [exact E|].
      now apply (removeDuplicateItems_In codenameOf languageOf).
    + intros (x & E & Hx).
      destruct (removeDuplicateItems_first codenameOf languageOf items x Hx)
        as (first & _ & Hfilter).
      assert (Hin : In first
                (filter (same x) (Api.removeDuplicateItems codenameOf languageOf items)))
        by (rewrite Hfilter; now left).
      apply filter_In in Hin. destruct Hin as [Hin Hsame].
      exists first. split; [|exact Hin].
      apply (sameKey_iff codenameOf languageOf) in Hsame. congruence.
  - rewrite removeDuplicateItems_keepNew. apply keepNew_length.
Qed.

End RemoveDuplicatesFurther.

(** ** Loops over the languages *)

Section FetchLoops.

Context {X : Type} (client : Client) (keep : string -> list PageItem -> list X).

(** The loop stops at the first rejected request: the items fetched so far
    are lost and the languages after it are not requested. *)
Lemma forOf_fetch_rejected (pre : list string) (lang : string) (post : list string) (e : string) :
  forall (acc : list X) (log : list Query),
    (forall i l, nth_error pre i = Some l ->
       exists found, client (List.length log + i) (pagesIn l) = Returned found) ->
    client (List.length log + List.length pre) (pagesIn lang) = Thrown e ->
    forOf (pre ++ lang :: post) (fetchPages client keep) acc log =
    (log ++ map pagesIn pre ++ [pagesIn lang], Thrown e).
Proof.
  induction pre as [|l pre IH]; intros acc log Hpre Hlang; simpl.
  - unfold fetchPages at 1. unfold bind at 1. unfold bind at 1. unfold toAllPromise.
    rewrite Nat.add_0_r in Hlang. unfold pagesIn in Hlang. now rewrite Hlang.
  - unfold fetchPages at 1. unfold bind at 1. unfold bind at 1. unfold toAllPromise.
    destruct (Hpre 0 l eq_refl) as [found Hfound].
    rewrite Nat.add_0_r in Hfound. unfold pagesIn in Hfound. rewrite Hfound.
    unfold ret at 1. rewrite IH.
    + rewrite <- app_assoc. reflexivity.
    + intros i l' Hi. rewrite length_app. simpl.
      replace (List.length log + 1 + i) with (List.length log + S i) by lia.
      now apply Hpre.
    + rewrite length_app. simpl.
      replace (List.length log + 1 + List.length pre)
        with (List.length log + S (List.length pre)) by lia.
      exact Hlang.
Qed.

(** When the loop completes it has issued one request per language, in
    order. *)
Lemma forOf_fetch_returned (langs : list string) :
  forall (acc : list X) (log log' : list Query) (allItems : list X),
    forOf langs (fetchPages client keep) acc log = (log', Returned allItems) ->
    log' = log ++ map pagesIn langs.
Proof.
  induction langs as [|l langs IH]; intros acc log log' allItems H; simpl in *.
  - injection H as <- _. now rewrite app_nil_r.
  - unfold fetchPages at 1 in H. unfold bind at 1 in H. unfold bind at 1 in H.
    unfold toAllPromise in H.
    destruct (client (List.length log) (ItemsAll l ["url_slug"; "slug"])); [|discriminate].
    unfold ret at 1 in H. apply IH in H. rewrite H, <- app_assoc. reflexivity.
Qed.

End FetchLoops.

Lemma contributions_rejected (client : Client) (qs : list Query) :
  forall n,
    (forall i q, exists e, client i q = Thrown e) ->
    contributions client n qs = [].
Proof.
  induction qs as [|q qs IH]; intros n H; simpl; [reflexivity|].
  destruct (H n q) as [e ->]. simpl. now apply IH.
Qed.

(** X3.  With a valid configuration [searchWithDeliveryApi] swallows every
    rejected lookup: even when all its requests are rejected it issues the six
    lookups and reports a success with no item, which cannot be told from a
    search without match. *)
Theorem searchWithDeliveryApi_hides_rejections
    (cfg : AppConfig) (client : Client) (target : string) (log : list Query) :
  Config.isConfigValid cfg = true ->
  (forall i q, exists e, client i q = Thrown e) ->
  Api.searchWithDeliveryApi cfg client target log =
  (log ++ deliveryQueries target,
   Returned {| success := true; items := []; error := None; method := "delivery-sdk";
               totalItems := Some 0; exactMatches := None; allSlugsCount := None;
               note := None |})
  /\ Api.searchWithDeliveryApi cfg emptyClient target log =
     Api.searchWithDeliveryApi cfg client target log.
Proof.
  intros valid Hrej.
  rewrite (searchWithDeliveryApi_run cfg client valid target log).
  rewrite (searchWithDeliveryApi_run cfg emptyClient valid target log).
  cbv zeta. rewrite (contributions_rejected client _ _ Hrej).
  split; reflexivity.
Qed.

Lemma searchWithDeliveryApi_hides_rejections_witness :
  Api.searchWithDeliveryApi exampleConfig offlineClient "contact" [] =
  ([] ++ deliveryQueries "contact",
   Returned {| success := true; items := []; error := None; method := "delivery-sdk";
               totalItems := Some 0; exactMatches := None; allSlugsCount := None;
               note := None |})
  /\ Api.searchWithDeliveryApi exampleConfig emptyClient "contact" [] =
     Api.searchWithDeliveryApi exampleConfig offlineClient "contact" [].
Proof.
  apply (searchWithDeliveryApi_hides_rejections exampleConfig offlineClient "contact" []).
  - reflexivity.
  - intros i q. exists "Network Error". reflexivity.
Defined.

(** X4.  [searchAllItemsDeliveryApi] gives up at the first rejected request:
    whatever the earlier languages returned is dropped, the later languages
    are not requested, and the result is the failure object carrying the
    message of the rejection. *)
Theorem searchAllItemsDeliveryApi_aborts_on_rejection
    (cfg : AppConfig) (client : Client) (target : string) (log : list Query)
    (pre : list string) (lang : string) (post : list string) (e : string) :
  Config.isConfigValid cfg = true ->
  Api.LANGUAGE_CODES = pre ++ lang :: post ->
  (forall i l, nth_error pre i = Some l ->
     exists found, client (List.length log + i) (pagesIn l) = Returned found) ->
  client (List.length log + List.length pre) (pagesIn lang) = Thrown e ->
  Api.searchAllItemsDeliveryApi cfg client target log =
  (log ++ map pagesIn pre ++ [pagesIn lang],
   Returned {| success := false; items := []; error := Some e;
               method := "delivery-sdk-all"; totalItems := None; exactMatches := None;
               allSlugsCount := None; note := None |}).
Proof.
  intros valid Hcodes Hpre Hlang.
  unfold Api.searchAllItemsDeliveryApi. rewrite valid. cbn [negb]. rewrite Hcodes.
  unfold tryCatch. unfold bind at 1. cbv beta.
  pose proof (forOf_fetch_rejected client
                (fun lang response =>
                   map (fun item => Api.formatSDKItem item lang) (filter Api.hasSlug response))
                pre lang post e [] log Hpre Hlang) as H.
  unfold fetchPages in H. rewrite H. reflexivity.
Qed.

Lemma searchAllItemsDeliveryApi_aborts_on_rejection_witness :
  Api.searchAllItemsDeliveryApi exampleConfig germanOnlyClient "kontakt" [] =
  ([] ++ map pagesIn ["de"] ++ [pagesIn "en"],
   Returned {| success := false; items := []; error := Some "Language not found";
               method := "delivery-sdk-all"; totalItems := None; exactMatches := None;
               allSlugsCount := None; note := None |}).
Proof.
  apply (searchAllItemsDeliveryApi_aborts_on_rejection exampleConfig germanOnlyClient
           "kontakt" [] ["de"] "en" ["zh"] "Language not found").
  - reflexivity.
  - reflexivity.
  - intros [|[|i]] l H; simpl in H; try discriminate. injection H as <-.
    eexists. reflexivity.
  - reflexivity.
Defined.

Lemma forOf_fetch_invariant {X} (client : Client) (keep : string -> list PageItem -> list X)
    (P : X -> Prop) (langs : list string) :
  forall (acc : list X) (log log' : list Query) (allItems : list X),
    (forall x, In x acc -> P x) ->
    (forall l found x, In l langs -> In x (keep l found) -> P x) ->
    forOf langs (fetchPages client keep) acc log = (log', Returned allItems) ->
    forall x, In x allItems -> P x.
Proof.
  induction langs as [|l langs IH]; intros acc log log' allItems Hacc Hkeep H; simpl in H.
  - injection H as _ <-. exact Hacc.
  - unfold fetchPages at 1 in H. unfold bind at 1 in H. unfold bind at 1 in H.
    unfold toAllPromise in H.
    destruct (client (List.length log) (ItemsAll l ["url_slug"; "slug"])) as [found|];
      [|discriminate].
    unfold ret at 1 in H. eapply IH; [| |exact H].
    + intros x Hx. apply in_app_or in Hx. destruct Hx as [Hx|Hx]; [now apply Hacc|].
      apply (Hkeep l found x); [now left | exact Hx].
    + intros l' found' x Hl'. apply Hkeep. now right.
Qed.

Lemma newSet_length_le (l : list string) : List.length (JS.newSet l) <= List.length l.
Proof.
  rewrite newSet_size. apply NoDup_incl_length; [apply NoDup_nodup|].
  intros x Hx. now apply nodup_In in Hx.
Qed.

(** X5.  When [searchAllItemsDeliveryApi] succeeds it has requested the pages
    of the three fixed languages in order; every item it returns has exactly
    the searched slug and one of those languages; [exactMatches] counts the
    returned items, and neither it nor [allSlugsCount] exceeds [totalItems]. *)
Theorem searchAllItemsDeliveryApi_success_shape
    (cfg : AppConfig) (client : Client) (target : string) (log log' : list Query)
    (r : ApiResult) :
  Api.searchAllItemsDeliveryApi cfg client target log = (log', Returned r) ->
  success r = true ->
  log' = log ++ map pagesIn Api.LANGUAGE_CODES
  /\ (forall x, In x (items r) ->
        ci_slug x = target /\ In (ci_language x) Api.LANGUAGE_CODES)
  /\ exactMatches r = Some (List.length (items r))
  /\ exists n u,
       totalItems r = Some n /\ allSlugsCount r = Some u
       /\ List.length (items r) <= n /\ u <= n.
Proof.
  unfold Api.searchAllItemsDeliveryApi.
  destruct (Config.isConfigValid cfg); cbn [negb].
  2:{ unfold ret. intros [= _ <-]. discriminate. }
  unfold tryCatch. unfold bind at 1. cbv beta.
  set (keep := fun (lang : string) (response : list PageItem) =>
                 map (fun item => Api.formatSDKItem item lang) (filter Api.hasSlug response)).
  change (forOf Api.LANGUAGE_CODES _ [] log)
    with (forOf Api.LANGUAGE_CODES (fetchPages client keep) [] log).
  destruct (forOf Api.LANGUAGE_CODES (fetchPages client keep) [] log)
    as [log1 [allItems|e]] eqn:Hloop.
  2:{ unfold ret. intros [= _ <-]. discriminate. }
  unfold ret. intros [= <- <-] _. simpl.
  split; [exact (forOf_fetch_returned client keep _ _ _ _ _ Hloop)|].
  split; [|split; [reflexivity|]].
  - intros x Hx. apply filter_In in Hx. destruct Hx as [Hx Hslug].
    split; [now apply String.eqb_eq|].
    apply (forOf_fetch_invariant client keep
             (fun x => In (ci_language x) Api.LANGUAGE_CODES)
             Api.LANGUAGE_CODES [] log log1 allItems); try assumption.
    + intros y [].
    + intros l found y Hl Hy. unfold keep in Hy. apply in_map_iff in Hy.
      destruct Hy as (item & <- & _). exact Hl.
  - eexists _, _. split; [reflexivity|]. split; [reflexivity|]. split.
    + apply filter_length_le.
    + rewrite <- (length_map ci_slug allItems). apply newSet_length_le.
Qed.

Lemma searchAllItemsDeliveryApi_success_shape_witness :
  [pagesIn "de"; pagesIn "en"; pagesIn "zh"] = [] ++ map pagesIn Api.LANGUAGE_CODES
  /\ (forall x, In x [contactIn "en" slug_field] ->
        ci_slug x = "contact" /\ In (ci_language x) Api.LANGUAGE_CODES)
  /\ Some 1 = Some (List.length [contactIn "en" slug_field])
  /\ exists n u,
       Some 1 = Some n /\ Some 1 = Some u
       /\ List.length [contactIn "en" slug_field] <= n /\ u <= n.
Proof.
  exact (searchAllItemsDeliveryApi_success_shape exampleConfig provenanceClient "contact" []
           _ _ eq_refl eq_refl).
Defined.

(** ** Detection runs: failures and counts *)

(** X6.  A detection run does not survive a rejected request: at the first
    rejection the items already fetched are dropped, the remaining languages
    are not requested, and the result carries the message of the rejection,
    an empty list of duplicates and no count. *)
Theorem findDuplicateSlugs_aborts_on_rejection
    (cfg : AppConfig) (client : Client) (langs : option (list string)) (log : list Query)
    (pre : list string) (lang : string) (post : list string) (e : string) :
  Config.isConfigValid cfg = true ->
  languagesSearched cfg langs = pre ++ lang :: post ->
  (forall i l, nth_error pre i = Some l ->
     exists found, client (List.length log + i) (pagesIn l) = Returned found) ->
  client (List.length log + List.length pre) (pagesIn lang) = Thrown e ->
  Search.findDuplicateSlugs cfg client langs log =
  (log ++ map pagesIn pre ++ [pagesIn lang],
   Returned {| duplicates := []; dr_totalItems := None; uniqueSlugs := None;
               dr_error := Some (String.append "Unexpected error: " e) |}).
Proof.
  intros valid Hlangs Hpre Hlang.
  unfold Search.findDuplicateSlugs. rewrite valid. cbn [negb].
  unfold tryCatch. unfold bind at 1. unfold Search.fetchAllPageItemsWithSlugs.
  fold (languagesSearched cfg langs). rewrite Hlangs.
  pose proof (forOf_fetch_rejected client (fun _ response => filter Api.hasSlug response)
                pre lang post e [] log Hpre Hlang) as H.
  unfold fetchPages in H. rewrite H. reflexivity.
Qed.

Lemma findDuplicateSlugs_aborts_on_rejection_witness :
  Search.findDuplicateSlugs exampleConfig germanOnlyClient (Some ["de"; "en"; "zh"]) [] =
  ([] ++ map pagesIn ["de"] ++ [pagesIn "en"],
   Returned {| duplicates := []; dr_totalItems := None; uniqueSlugs := None;
               dr_error := Some (String.append "Unexpected error: " "Language not found") |}).
Proof.
  apply (findDuplicateSlugs_aborts_on_rejection exampleConfig germanOnlyClient
           (Some ["de"; "en"; "zh"]) [] ["de"] "en" ["zh"] "Language not found").
  - reflexivity.
  - reflexivity.
  - intros [|[|i]] l H; simpl in H; try discriminate. injection H as <-.
    eexists. reflexivity.
  - reflexivity.
Defined.

Lemma buildSlugMap_In (items : list PageItem) (s : string) (records : list SlugItem) :
  In (s, records) (Search.buildSlugMap items) <->
  In s (map slugKey (filter Api.hasSlug items))
  /\ records = map Search.slugItemOf (withSlug s items).
Proof. rewrite buildSlugMap_groupedBy. unfold withSlug. apply groupedBy_In. Qed.

Lemma buildSlugMap_keys_NoDup (items : list PageItem) :
  NoDup (map fst (Search.buildSlugMap items)).
Proof. rewrite buildSlugMap_groupedBy, groupedBy_keys. apply newSet_NoDup. Qed.

Lemma truthy_nonempty (s : string) : JS.truthy s = true <-> s <> "".
Proof. destruct s; simpl; split; congruence. Qed.

Lemma buildSlugMap_entry (items : list PageItem) (s : string) (records : list SlugItem) :
  In (s, records) (Search.buildSlugMap items) -> s <> "" /\ records <> [].
Proof.
  intros H. apply buildSlugMap_In in H. destruct H as [Hs ->].
  apply in_map_iff in Hs. destruct Hs as (it & <- & Hit).
  pose proof Hit as Hit'. apply filter_In in Hit'. destruct Hit' as [_ Hslug]. split.
  - apply truthy_nonempty. now rewrite <- hasSlug_slugKey.
  - intros E. assert (Hin : In (Search.slugItemOf it)
                              (map Search.slugItemOf (withSlug (slugKey it) items))).
    { apply in_map. unfold withSlug. apply filter_In. split; [exact Hit | apply String.eqb_refl]. }
    rewrite E in Hin. contradiction.
Qed.

Lemma NoDup_map_fst_filter {A B} (p : A * B -> bool) (m : list (A * B)) :
  NoDup (map fst m) -> NoDup (map fst (filter p m)).
Proof.
  induction m as [|e m IH]; simpl; intros H; [constructor|].
  inversion H as [|? ? Hnot Hnd]; subst.
  destruct (p e); simpl; [|now apply IH].
  constructor; [|now apply IH].
  intros Hin. apply Hnot. apply in_map_iff in Hin. destruct Hin as (e' & E & He').
  apply filter_In in He'. destruct He' as [He' _].
  rewrite <- E. now apply in_map.
Qed.

Lemma isTrueDuplicate_length (s : string) (records : list SlugItem) :
  Search.isTrueDuplicate (s, records) = true -> 2 <= List.length records.
Proof.
  unfold Search.isTrueDuplicate. simpl. rewrite Nat.ltb_lt. intros H.
  pose proof (newSet_length_le (map codename records)) as Hle.
  rewrite length_map in Hle. lia.
Qed.

Lemma totalRecords_lower_bound (m : JS.Store (list SlugItem)) :
  (forall s records, In (s, records) m -> records <> []) ->
  List.length m + List.length (filter Search.isTrueDuplicate m) <= totalRecords m.
Proof.
  unfold totalRecords. induction m as [|[s records] m IH]; intros H; simpl; [lia|].
  assert (IH' : List.length m + List.length (filter Search.isTrueDuplicate m)
                <= list_sum (map (fun e => List.length (snd e)) m))
    by (apply IH; intros s' r' Hin; apply (H s' r'); now right).
  destruct (Search.isTrueDuplicate (s, records)) eqn:E; simpl.
  - apply isTrueDuplicate_length in E. lia.
  - assert (records <> []) by (apply (H s records); now left).
    destruct records; [congruence | simpl; lia].
Qed.

(** The two ways a detection run ends. *)
Lemma findDuplicateSlugs_cases (cfg : AppConfig) (client : Client)
    (langs : option (list string)) (log log' : list Query) (r : DuplicateResult) :
  Search.findDuplicateSlugs cfg client langs log = (log', Returned r) ->
  (exists message, r = failedDetection message)
  \/ (exists allItems,
        forallb Api.hasSlug allItems = true
        /\ Search.findTrueDuplicates (Search.buildSlugMap allItems) = Returned (duplicates r)
        /\ dr_totalItems r = Some (List.length allItems)
        /\ uniqueSlugs r = Some (List.length (Search.buildSlugMap allItems))
        /\ dr_error r = None).
Proof.
  unfold Search.findDuplicateSlugs.
  destruct (Config.isConfigValid cfg); cbn [negb].
  2:{ unfold ret. intros [= _ <-]. left. eexists. reflexivity. }
  unfold tryCatch. unfold bind at 1.
  destruct (Search.fetchAllPageItemsWithSlugs cfg client _ log)
    as [log1 [allItems|e]] eqn:Hfetch.
  - unfold bind, liftOutcome.
    destruct (Search.findTrueDuplicates (Search.buildSlugMap allItems)) as [groups|e] eqn:Hg.
    + unfold ret. intros [= _ <-]. right. exists allItems. simpl.
      split; [|auto]. unfold Search.fetchAllPageItemsWithSlugs in Hfetch.
      eapply forOf_hasSlug; [|exact Hfetch]. reflexivity.
    + unfold ret. intros [= _ <-]. left. eexists. reflexivity.
  - unfold ret. intros [= _ <-]. left. eexists. reflexivity.
Qed.

(** X7.  In a result without error the counts are consistent: there are at
    most as many duplicate groups as unique slugs, and the unique slugs and
    the duplicate groups together do not outnumber the items, since every slug
    holds at least one item and every duplicate slug at least two. *)
Theorem findDuplicateSlugs_counts_are_consistent
    (cfg : AppConfig) (client : Client) (langs : option (list string))
    (log log' : list Query) (r : DuplicateResult) :
  Search.findDuplicateSlugs cfg client langs log = (log', Returned r) ->
  dr_error r = None ->
  exists n u,
    dr_totalItems r = Some n /\ uniqueSlugs r = Some u
    /\ List.length (duplicates r) <= u
    /\ u + List.length (duplicates r) <= n.
Proof.
  intros H Herr. destruct (findDuplicateSlugs_cases cfg client langs log log' r H)
    as [[message ->] | (allItems & Hslugs & Hgroups & Hn & Hu & _)]; [discriminate|].
  exists (List.length allItems), (List.length (Search.buildSlugMap allItems)).
  split; [exact Hn|]. split; [exact Hu|].
  destruct (findTrueDuplicates_returned _ _ Hgroups) as [Hmap _].
  assert (Hlen : List.length (duplicates r) =
                 List.length (filter Search.isTrueDuplicate (Search.buildSlugMap allItems))).
  { rewrite <- (length_map dg_slug), Hmap. apply length_map. }
  rewrite Hlen. split; [apply filter_length_le|].
  rewrite <- (buildSlugMap_conserves_count allItems Hslugs).
  apply totalRecords_lower_bound.
  intros s records Hin. now apply (buildSlugMap_entry allItems s records).
Qed.

Lemma findDuplicateSlugs_counts_are_consistent_witness :
  exists n u,
    Some 2 = Some n /\ Some 1 = Some u
    /\ List.length [{| dg_slug := "contact";
                       dg_items := [record "A" "article_a" "en";
                                    {| name := "B"; codename := "article_b"; language := "en";
                                       slugField := slug_field |}] |}] <= u
    /\ u + List.length [{| dg_slug := "contact";
                           dg_items := [record "A" "article_a" "en";
                                        {| name := "B"; codename := "article_b";
                                           language := "en"; slugField := slug_field |}] |}] <= n.
Proof.
  exact (findDuplicateSlugs_counts_are_consistent exampleConfig threePagesClient (Some ["en"]) []
           _ _ eq_refl eq_refl).
Defined.

(** X8.  Whatever a detection run returns, its duplicate groups have pairwise
    distinct, non-empty slugs, and every group lists at least two rows with
    pairwise distinct codenames: no slug is reported twice and no slug is
    reported for a single entity. *)
Theorem findDuplicateSlugs_reports_only_true_duplicates
    (cfg : AppConfig) (client : Client) (langs : option (list string))
    (log log' : list Query) (r : DuplicateResult) :
  Search.findDuplicateSlugs cfg client langs log = (log', Returned r) ->
  NoDup (map dg_slug (duplicates r))
  /\ forall g, In g (duplicates r) ->
       dg_slug g <> ""
       /\ 2 <= List.length (dg_items g)
       /\ NoDup (map codename (dg_items g)).
Proof.
  intros H. destruct (findDuplicateSlugs_cases cfg client langs log log' r H)
    as [[message ->] | (allItems & _ & Hgroups & _)].
  - simpl. split; [constructor | contradiction].
  - destruct (findTrueDuplicates_returned _ _ Hgroups) as [Hmap Hg]. split.
    + rewrite Hmap. apply NoDup_map_fst_filter, buildSlugMap_keys_NoDup.
    + intros g Hin. destruct (Hg g Hin) as (records & Hrec & Hdup & Hrows).
      split; [now apply (buildSlugMap_entry allItems _ records)|].
      pose proof (groupItemsByCodename_count records _ Hrows) as Hcount.
      split; [rewrite Hcount; now apply (isTrueDuplicate_iff (dg_slug g))|].
      pose proof Hrows as Hout. rewrite groupItemsByCodename_outcome in Hout.
      destruct (existsb JS.isInherited (map codename records)) eqn:Hsafe; [discriminate|].
      destruct (groupItemsByCodename_rows records Hsafe) as (rows & Hrows' & P & _).
      assert (rows = dg_items g) by congruence. subst rows.
      apply (Permutation_NoDup (l := JS.newSet (map codename records)));
        [now symmetry | apply newSet_NoDup].
Qed.

Lemma findDuplicateSlugs_reports_only_true_duplicates_witness :
  NoDup (map dg_slug
           [{| dg_slug := "contact";
               dg_items := [record "A" "article_a" "en";
                            {| name := "B"; codename := "article_b"; language := "en";
                               slugField := slug_field |}] |}])
  /\ forall g,
       In g [{| dg_slug := "contact";
                dg_items := [record "A" "article_a" "en";
                             {| name := "B"; codename := "article_b"; language := "en";
                                slugField := slug_field |}] |}] ->
       dg_slug g <> ""
       /\ 2 <= List.length (dg_items g)
       /\ NoDup (map codename (dg_items g)).
Proof.
  exact (findDuplicateSlugs_reports_only_true_duplicates exampleConfig threePagesClient
           (Some ["en"]) [] _ _ eq_refl).
Defined.

(** ** Defaults of the extracted records *)

Lemma orDefault_nonempty (a d : string) : d <> "" -> JS.orDefault a d <> "".
Proof.
  intros Hd. unfold JS.orDefault. destruct (JS.truthy a) eqn:E; [|exact Hd].
  now apply truthy_nonempty.
Qed.

(** X10.  The records built from a fetched item never carry an empty name or
    codename: [formatSDKItem] also fills in the type and the slug, and keeps
    the language it was called with; an item without slug value gets the
    placeholder slug and the field [slug]; the records of the slug index never
    carry an empty language. *)
Theorem extracted_records_are_never_blank (item : PageItem) (lang : string) :
  (ci_name (Api.formatSDKItem item lang) <> ""
   /\ ci_codename (Api.formatSDKItem item lang) <> ""
   /\ ci_type (Api.formatSDKItem item lang) <> ""
   /\ ci_slug (Api.formatSDKItem item lang) <> ""
   /\ ci_language (Api.formatSDKItem item lang) = lang)
  /\ (Api.hasSlug item = false ->
      ci_slug (Api.formatSDKItem item lang) = "No slug"
      /\ ci_slugField (Api.formatSDKItem item lang) = slug_field)
  /\ (name (Search.slugItemOf item) <> ""
      /\ codename (Search.slugItemOf item) <> ""
      /\ language (Search.slugItemOf item) <> "").
Proof.
  split; [|split].
  - simpl. repeat split; try (apply orDefault_nonempty; discriminate).
    unfold JS.orElse. destruct (Api.slugValueOf item) as [s|]; [|discriminate].
    destruct (JS.truthy s) eqn:E; [now apply truthy_nonempty | discriminate].
  - unfold Api.hasSlug, Api.formatSDKItem, Api.slugFieldOf, Api.slugValueOf, JS.orOpt. simpl.
    destruct (JS.truthyOpt (url_slug (elements item))) eqn:E1; [congruence|].
    intros E2. unfold JS.orElse. destruct (slug (elements item)) as [w|]; simpl in *.
    + now rewrite E2.
    + auto.
  - simpl. repeat split; apply orDefault_nonempty; discriminate.
Qed.

(** ** Invariants of the slug index *)

(** X11.  Every entry of the slug index has a non-empty slug and a non-empty
    list of records, and the index has at most as many entries as there are
    input items. *)
Theorem buildSlugMap_entries_are_inhabited (items : list PageItem) :
  Forall (fun entry => fst entry <> "" /\ snd entry <> []) (Search.buildSlugMap items)
  /\ List.length (Search.buildSlugMap items) <= List.length items.
Proof.
  split.
  - apply Forall_forall. intros [s records] Hin. simpl.
    now apply (buildSlugMap_entry items).
  - rewrite <- (length_map fst), buildSlugMap_groupedBy, groupedBy_keys.
    etransitivity; [apply newSet_length_le|].
    rewrite length_map. apply filter_length_le.
Qed.

Lemma flaggedSlugs_In (items : list PageItem) (s : string) :
  In s (flaggedSlugs items) <->
  exists records,
    In (s, records) (Search.buildSlugMap items)
    /\ Search.isTrueDuplicate (s, records) = true.
Proof.
  unfold flaggedSlugs. rewrite in_map_iff. split.
  - intros ([s' records] & E & Hin). simpl in E. subst s'.
    apply filter_In in Hin. now exists records.
  - intros (records & Hin & Hdup). exists (s, records). split; [reflexivity|].
    now apply filter_In.
Qed.

(** Two items with the same slug and different codenames. *)
Lemma flagged_gives_two_entities (items : list PageItem) (s : string) :
  In s (flaggedSlugs items) ->
  exists a b,
    In a items /\ In b items
    /\ Api.hasSlug a = true /\ Api.hasSlug b = true
    /\ slugKey a = s /\ slugKey b = s
    /\ JS.orDefault (sys_codename (system a)) "unknown"
       <> JS.orDefault (sys_codename (system b)) "unknown".
Proof.
  rewrite flaggedSlugs_In.
  intros (records & Hin & Hdup). apply buildSlugMap_In in Hin. destruct Hin as [_ ->].
  apply isTrueDuplicate_two_entities in Hdup.
  destruct Hdup as (r1 & r2 & H1 & H2 & Hne).
  apply in_map_iff in H1. destruct H1 as (a & <- & Ha).
  apply in_map_iff in H2. destruct H2 as (b & <- & Hb).
  unfold withSlug in Ha, Hb.
  apply filter_In in Ha. destruct Ha as [Ha Hsa]. apply filter_In in Ha. destruct Ha as [Ha Hha].
  apply filter_In in Hb. destruct Hb as [Hb Hsb]. apply filter_In in Hb. destruct Hb as [Hb Hhb].
  apply String.eqb_eq in Hsa, Hsb.
  exists a, b. repeat split; assumption.
Qed.

Lemma two_entities_get_flagged (items : list PageItem) (a b : PageItem) :
  In a items -> In b items ->
  Api.hasSlug a = true -> Api.hasSlug b = true -> slugKey a = slugKey b ->
  JS.orDefault (sys_codename (system a)) "unknown"
  <> JS.orDefault (sys_codename (system b)) "unknown" ->
  In (slugKey a) (flaggedSlugs items).
Proof.
  intros Ha Hb Hha Hhb Hs Hne. apply flaggedSlugs_In.
  exists (map Search.slugItemOf (withSlug (slugKey a) items)). split.
  - apply buildSlugMap_In. split; [|reflexivity].
    apply in_map_iff. exists a. split; [reflexivity|]. now apply filter_In.
  - apply isTrueDuplicate_two_entities.
    exists (Search.slugItemOf a), (Search.slugItemOf b).
    assert (Hin : forall it, In it items -> Api.hasSlug it = true -> slugKey it = slugKey a ->
                    In (Search.slugItemOf it)
                       (map Search.slugItemOf (withSlug (slugKey a) items))).
    { intros it Hit Hh Hs'. apply in_map. unfold withSlug. apply filter_In. split.
      - now apply filter_In.
      - now apply String.eqb_eq. }
    repeat split; [now apply Hin | apply Hin; auto | exact Hne].
Qed.

(** X12.  The classifier flags a slug exactly when two of the fetched items
    carry it as their slug and have different codenames (the codename of an
    item without one counting as [unknown]). *)
Theorem slug_is_flagged_iff_two_entities_share_it (items : list PageItem) (s : string) :
  In s (flaggedSlugs items) <->
  exists a b,
    In a items /\ In b items
    /\ Api.hasSlug a = true /\ Api.hasSlug b = true
    /\ slugKey a = s /\ slugKey b = s
    /\ JS.orDefault (sys_codename (system a)) "unknown"
       <> JS.orDefault (sys_codename (system b)) "unknown".
Proof.
  split; [apply flagged_gives_two_entities|].
  intros (a & b & Ha & Hb & Hha & Hhb & Hsa & Hsb & Hne). subst s.
  apply (two_entities_get_flagged items a b); auto.
Qed.

(** X13.  The flagged slugs do not depend on the order in which the items
    were fetched: two runs over the same items, in any order, flag the same
    slugs. *)
Theorem flagged_slugs_ignore_fetch_order (items items' : list PageItem) :
  Permutation items items' ->
  Permutation (flaggedSlugs items) (flaggedSlugs items').
Proof.
  intros P. apply NoDup_Permutation.
  - unfold flaggedSlugs. apply NoDup_map_fst_filter, buildSlugMap_keys_NoDup.
  - unfold flaggedSlugs. apply NoDup_map_fst_filter, buildSlugMap_keys_NoDup.
  - assert (Hsub : forall l l', Permutation l l' ->
                     forall s, In s (flaggedSlugs l) -> In s (flaggedSlugs l')).
    { intros l l' Pl s Hs.
      destruct (flagged_gives_two_entities l s Hs)
        as (a & b & Ha & Hb & Hha & Hhb & Hsa & Hsb & Hne).
      subst s. apply (two_entities_get_flagged l' a b); try assumption;
        [now apply (Permutation_in _ Pl) | now apply (Permutation_in _ Pl) | congruence]. }
    intros s. split; [now apply Hsub | apply Hsub; now symmetry].
Qed.

Lemma flagged_slugs_ignore_fetch_order_witness :
  Permutation
    (flaggedSlugs [page "A" "article_a" "en" (Some "contact") None;
                   page "B" "article_b" "de" None (Some "contact")])
    (flaggedSlugs [page "B" "article_b" "de" None (Some "contact");
                   page "A" "article_a" "en" (Some "contact") None]).
Proof.
  apply (flagged_slugs_ignore_fetch_order
           [page "A" "article_a" "en" (Some "contact") None;
            page "B" "article_b" "de" None (Some "contact")]
           [page "B" "article_b" "de" None (Some "contact");
            page "A" "article_a" "en" (Some "contact") None]).
  apply perm_swap.
Defined.

Lemma extracted_records_are_never_blank_witness :
  ci_slug (Api.formatSDKItem pageWithoutSlug "en") = "No slug"
  /\ ci_slugField (Api.formatSDKItem pageWithoutSlug "en") = slug_field.
Proof.
  apply (proj1 (proj2 (extracted_records_are_never_blank pageWithoutSlug "en"))).
  reflexivity.
Defined.

(** ** When the grouper and the classifier meet their purpose *)

Lemma grouper_builds_one_row_per_codename_witness :
  exists entities,
    Search.groupItemsByCodename
      [record "A" "article_a" "en"; record "B" "article_b" "en"; record "A" "article_a" "de"]
    = Returned entities
    /\ List.length entities =
       List.length (distinctCodenames
         [record "A" "article_a" "en"; record "B" "article_b" "en"; record "A" "article_a" "de"])
    /\ 2 <= List.length entities
    /\ NoDup (map codename entities)
    /\ forall e, In e entities ->
         exists first rest,
           withCodename (codename e)
             [record "A" "article_a" "en"; record "B" "article_b" "en";
              record "A" "article_a" "de"] = first :: rest
           /\ name e = name first
           /\ slugField e = slugField first
           /\ language e = JS.join ", " (map language (first :: rest)).
Proof.
  apply (grouper_builds_one_row_per_codename "contact"
           [record "A" "article_a" "en"; record "B" "article_b" "en";
            record "A" "article_a" "de"]).
  - reflexivity.
  - reflexivity.
Defined.

Lemma findTrueDuplicates_classifies_witness :
  exists groups,
    Search.findTrueDuplicates exampleIndex = Returned groups
    /\ forall s records, In (s, records) exampleIndex ->
         (In s (map dg_slug groups) <-> 2 <= List.length (distinctCodenames records)).
Proof.
  apply (findTrueDuplicates_classifies exampleIndex).
  - simpl. repeat constructor; simpl; intuition discriminate.
  - intros s records [H|[H|[]]] _; injection H as <- <-; reflexivity.
Defined.

(** X16.  [groupItemsByCodename] throws exactly when some record carries a
    codename that names a member of [Object.prototype]; on every other input
    it returns its rows. *)
Theorem groupItemsByCodename_throws_exactly_on_inherited_names (items : list SlugItem) :
  (Search.groupItemsByCodename items = Thrown Search.pushIsNotAFunction <->
   exists r, In r items /\ In (codename r) JS.objectPrototypeKeys)
  /\ ((forall r, In r items -> ~ In (codename r) JS.objectPrototypeKeys) <->
      exists rows, Search.groupItemsByCodename items = Returned rows).
Proof.
  assert (Hex : existsb JS.isInherited (map codename items) = true <->
                exists r, In r items /\ In (codename r) JS.objectPrototypeKeys).
  { rewrite existsb_exists. split.
    - intros (c & Hc & Hi). apply in_map_iff in Hc. destruct Hc as (r & <- & Hr).
      exists r. split; [exact Hr|]. now apply existsb_eqb_In.
    - intros (r & Hr & Hi). exists (codename r). split; [now apply in_map|].
      now apply existsb_eqb_In. }
  destruct (existsb JS.isInherited (map codename items)) eqn:E.
  - pose proof (groupItemsByCodename_throws items E) as Ht.
    destruct (proj1 Hex eq_refl) as (r & Hr & Hi). split.
    + split; [intros _; now exists r | intros _; exact Ht].
    + split.
      * intros Hnone. exfalso. now apply (Hnone r Hr).
      * intros [rows Hrows]. congruence.
  - destruct (groupItemsByCodename_rows items E) as (rows & Hrows & _). split.
    + split; [rewrite Hrows; discriminate|].
      intros Hsome. apply Hex in Hsome. discriminate.
    + split; [intros _; now exists rows|].
      intros _ r Hr Hi. assert (false = true) by (apply Hex; eauto).
      discriminate.
Qed.

Lemma summarize_codenames (entries : list (string * list SlugItem)) (rows : list SlugItem) :
  Forall2 (fun entry row => Search.summarize entry = Returned row) entries rows ->
  map codename rows = map fst entries.
Proof.
  induction 1 as [|entry row entries rows H _ IH]; simpl; [reflexivity|].
  f_equal; [|exact IH]. unfold Search.summarize in H.
  destruct (snd entry); [discriminate|]. now injection H as <-.
Qed.

Lemma objectEntries_named {V} (o : JS.Store V) :
  (forall k v, In (k, v) o -> JS.arrayIndex k = None) -> JS.objectEntries o = o.
Proof.
  intros H. unfold JS.objectEntries, JS.indexed, JS.named.
  induction o as [|[k v] o IH]; simpl; [reflexivity|].
  rewrite (H k v) by now left. simpl.
  assert (IH' : forall k' v', In (k', v') o -> JS.arrayIndex k' = None)
    by (intros k' v' Hin; apply (H k' v'); now right).
  specialize (IH IH').
  destruct (flat_map _ o) as [|e l] eqn:Ef.
  - simpl in *. now rewrite IH.
  - exfalso. assert (Hin : In e (e :: l)) by now left. rewrite <- Ef in Hin.
    apply in_flat_map in Hin. destruct Hin as ([k' v'] & Hin & He). simpl in He.
    rewrite (IH' k' v' Hin) in He. contradiction.
Qed.

(** X18.  When no codename is the decimal form of an array index and none
    names a member of [Object.prototype], the rows of a group come in the
    order in which their codenames first occur among the records. *)
Theorem rows_follow_first_occurrence (items : list SlugItem) :
  (forall r, In r items ->
     JS.arrayIndex (codename r) = None /\ JS.isInherited (codename r) = false) ->
  exists rows,
    Search.groupItemsByCodename items = Returned rows
    /\ map codename rows = JS.newSet (map codename items).
Proof.
  intros H.
  assert (Hsafe : existsb JS.isInherited (map codename items) = false).
  { destruct (existsb JS.isInherited (map codename items)) eqn:E; [|reflexivity].
    apply existsb_exists in E. destruct E as (c & Hc & Hi).
    apply in_map_iff in Hc. destruct Hc as (r & <- & Hr).
    destruct (H r Hr) as [_ Hn]. congruence. }
  destruct (groupItemsByCodename_rows items Hsafe) as (rows & Hrows & _).
  exists rows. split; [exact Hrows|].
  rewrite groupItemsByCodename_outcome, Hsafe in Hrows.
  apply mapThrowing_Forall2, summarize_codenames in Hrows. rewrite Hrows.
  rewrite objectEntries_named.
  - apply groupedBy_keys.
  - intros k v Hin. apply groupedBy_id_In in Hin. destruct Hin as [Hk _].
    apply in_map_iff in Hk. destruct Hk as (r & <- & Hr). now apply H.
Qed.

Lemma rows_follow_first_occurrence_witness :
  exists rows,
    Search.groupItemsByCodename
      [record "B" "article_b" "en"; record "A" "article_a" "en"; record "B" "article_b" "de"]
    = Returned rows
    /\ map codename rows =
       JS.newSet (map codename
         [record "B" "article_b" "en"; record "A" "article_a" "en";
          record "B" "article_b" "de"]).
Proof.
  apply (rows_follow_first_occurrence
           [record "B" "article_b" "en"; record "A" "article_a" "en";
            record "B" "article_b" "de"]).
  intros r [<-|[<-|[<-|[]]]]; split; reflexivity.
Defined.

(** Codenames that are array indices come first, in ascending numeric
    order, whatever their order among the records. *)
Example numeric_codenames_come_first :
  Search.groupItemsByCodename
    [record "B" "article_b" "en"; record "Ten" "10" "en"; record "Nine" "9" "en"] =
  Returned [record "Nine" "9" "en"; record "Ten" "10" "en"; record "B" "article_b" "en"].
Proof. reflexivity. Qed.

(** ** Requests issued by the loops *)

(** Whatever the outcome, the loop has requested a prefix of the languages,
    in order, and at least the first one. *)
Lemma forOf_fetch_log {X} (client : Client) (keep : string -> list PageItem -> list X)
    (langs : list string) :
  forall (acc : list X) (log log' : list Query) (o : Outcome (list X)),
    forOf langs (fetchPages client keep) acc log = (log', o) ->
    exists k,
      k <= List.length langs
      /\ log' = log ++ map pagesIn (firstn k langs)
      /\ (langs <> [] -> 1 <= k).
Proof.
  induction langs as [|l langs IH]; intros acc log log' o H; simpl in H.
  - injection H as <- _. exists 0. simpl. rewrite app_nil_r. repeat split; [lia | congruence].
  - unfold fetchPages at 1 in H. unfold bind at 1 in H. unfold bind at 1 in H.
    unfold toAllPromise in H.
    destruct (client (List.length log) (ItemsAll l ["url_slug"; "slug"])) as [found|e].
    + unfold ret at 1 in H. apply IH in H. destruct H as (k & Hk & -> & _).
      exists (S k). simpl. rewrite <- app_assoc. repeat split; lia.
    + injection H as <- _. exists 1. simpl. repeat split; lia.
Qed.

(** X17.  [searchSpecificSlug] always returns, and never through its [catch]
    branch: the method of the result is [combined-sdk] under a valid
    configuration and [none] otherwise, never [error].  A successful result
    has no error message and its [totalItems] is the length of the merged
    list.  Under a valid configuration the run issues the six lookups and then
    between one and three page requests. *)
Theorem searchSpecificSlug_never_fails_unexpectedly
    (cfg : AppConfig) (client : Client) (target : string) (log : list Query) :
  exists log' r,
    Search.searchSpecificSlug cfg client target log = (log', Returned r)
    /\ method (merged r) = (if Config.isConfigValid cfg then "combined-sdk" else "none")
    /\ (success (merged r) = true ->
        error (merged r) = None
        /\ totalItems (merged r) = Some (List.length (items (merged r))))
    /\ (if Config.isConfigValid cfg
        then exists k, 1 <= k <= 3
               /\ log' = log ++ deliveryQueries target
                             ++ map pagesIn (firstn k Api.LANGUAGE_CODES)
        else log' = log).
Proof.
  destruct (Config.isConfigValid cfg) eqn:valid.
  - pose proof (searchWithDeliveryApi_run cfg client valid target log) as Hd. cbv zeta in Hd.
    destruct (searchAllItemsDeliveryApi_returns cfg client valid target
                (log ++ deliveryQueries target)) as (log2 & a & Ha & _).
    pose proof (searchSpecificSlug_run cfg client valid target log _ log2 _ a Hd Ha) as Hs.
    cbv zeta in Hs. eexists _, _. split; [exact Hs|]. simpl.
    split; [reflexivity|]. split; [auto|].
    unfold Api.searchAllItemsDeliveryApi in Ha. rewrite valid in Ha. cbn [negb] in Ha.
    unfold tryCatch in Ha. unfold bind at 1 in Ha. cbv beta in Ha.
    set (keep := fun (lang : string) (response : list PageItem) =>
                   map (fun item => Api.formatSDKItem item lang)
                       (filter Api.hasSlug response)) in *.
    change (forOf Api.LANGUAGE_CODES _ [] (log ++ deliveryQueries target))
      with (forOf Api.LANGUAGE_CODES (fetchPages client keep) []
                  (log ++ deliveryQueries target)) in Ha.
    destruct (forOf Api.LANGUAGE_CODES (fetchPages client keep) []
                    (log ++ deliveryQueries target)) as [log3 o] eqn:Hloop.
    apply forOf_fetch_log in Hloop. destruct Hloop as (k & Hk & -> & Hpos).
    assert (log2 = (log ++ deliveryQueries target)
                   ++ map pagesIn (firstn k Api.LANGUAGE_CODES))
      by (destruct o; unfold ret in Ha; congruence).
    subst log2. exists k. split.
    + split; [apply Hpos; discriminate | exact Hk].
    + now rewrite <- app_assoc.
  - exists log, (Search.failedSearch Search.missingProjectId "none").
    unfold Search.searchSpecificSlug. rewrite valid. simpl.
    split; [reflexivity|]. split; [reflexivity|]. split; [discriminate | reflexivity].
Qed.

(** ** Languages of a detection run *)

(** X9.  [getConfiguredLanguages] never returns the empty list: it returns
    the configured languages when there are some, else a single non-empty
    language.  So a detection run called without languages under a valid
    configuration issues at least one request, while a run called with the
    empty array issues none and returns the empty success. *)
Theorem detection_run_without_languages_requests_one
    (cfg : AppConfig) (client : Client) (log : list Query) :
  Config.isConfigValid cfg = true ->
  Config.getConfiguredLanguages cfg <> []
  /\ (languages cfg = [] ->
      exists lang, Config.getConfiguredLanguages cfg = [lang] /\ lang <> "")
  /\ (languages cfg <> [] -> Config.getConfiguredLanguages cfg = languages cfg)
  /\ (exists log' r first rest,
        Search.findDuplicateSlugs cfg client None log = (log', Returned r)
        /\ log' = log ++ pagesIn first :: rest
        /\ hd_error (Config.getConfiguredLanguages cfg) = Some first)
  /\ Search.findDuplicateSlugs cfg client (Some []) log =
     (log, Returned {| duplicates := []; dr_totalItems := Some 0; uniqueSlugs := Some 0;
                       dr_error := None |}).
Proof.
  intros valid.
  assert (Hne : Config.getConfiguredLanguages cfg <> []).
  { unfold Config.getConfiguredLanguages. destruct (languages cfg); simpl; discriminate. }
  split; [exact Hne|]. split; [|split; [|split]].
  - intros E. unfold Config.getConfiguredLanguages. rewrite E. simpl.
    eexists. split; [reflexivity|]. apply orDefault_nonempty. discriminate.
  - intros E. unfold Config.getConfiguredLanguages. destruct (languages cfg); [congruence|].
    reflexivity.
  - destruct (findDuplicateSlugs_outcome cfg client None log) as (log' & r & H & _).
    exists log', r.
    pose proof H as H'. unfold Search.findDuplicateSlugs in H'. rewrite valid in H'.
    cbn [negb] in H'. unfold tryCatch in H'. unfold bind at 1 in H'.
    unfold Search.fetchAllPageItemsWithSlugs in H'.
    change (forOf (Config.getConfiguredLanguages cfg) _ [] log)
      with (forOf (Config.getConfiguredLanguages cfg)
                  (fetchPages client (fun _ response => filter Api.hasSlug response)) [] log)
      in H'.
    destruct (forOf (Config.getConfiguredLanguages cfg) _ [] log) as [log1 o] eqn:Hloop.
    apply forOf_fetch_log in Hloop. destruct Hloop as (k & _ & -> & Hpos).
    specialize (Hpos Hne).
    assert (log' = log ++ map pagesIn (firstn k (Config.getConfiguredLanguages cfg))).
    { destruct o as [allItems|e].
      - unfold bind, liftOutcome in H'.
        destruct (Search.findTrueDuplicates (Search.buildSlugMap allItems));
          unfold ret in H'; congruence.
      - unfold ret in H'. congruence. }
    subst log'.
    destruct (Config.getConfiguredLanguages cfg) as [|first langs]; [congruence|].
    destruct k as [|k]; [lia|]. simpl.
    exists first, (map pagesIn (firstn k langs)). auto.
  - unfold Search.findDuplicateSlugs. rewrite valid. reflexivity.
Qed.

Lemma detection_run_without_languages_requests_one_witness :
  Config.getConfiguredLanguages frenchConfig <> []
  /\ (languages frenchConfig = [] ->
      exists lang, Config.getConfiguredLanguages frenchConfig = [lang] /\ lang <> "")
  /\ (languages frenchConfig <> [] ->
      Config.getConfiguredLanguages frenchConfig = languages frenchConfig)
  /\ (exists log' r first rest,
        Search.findDuplicateSlugs frenchConfig offlineClient None [] = (log', Returned r)
        /\ log' = [] ++ pagesIn first :: rest
        /\ hd_error (Config.getConfiguredLanguages frenchConfig) = Some first)
  /\ Search.findDuplicateSlugs frenchConfig offlineClient (Some []) [] =
     ([], Returned {| duplicates := []; dr_totalItems := Some 0; uniqueSlugs := Some 0;
                      dr_error := None |}).
Proof.
  apply (detection_run_without_languages_requests_one frenchConfig offlineClient []).
  reflexivity.
Defined.

(** ** Initialisation of the configuration *)

Lemma orDefault_empty (a : string) : JS.orDefault a "" = a.
Proof. now destruct a. Qed.

(** X20.  [initializeConfig] takes the project and environment identifiers
    from the host context when it delivers a non-empty one, and the
    configuration is then valid, so a slug search does not fail on it.  When
    the context call throws or reports an error, both identifiers come from
    the environment variables alone, and the configuration is valid exactly
    when the project variable is non-empty: an identifier from an earlier
    initialisation is not kept.  The two API keys are never touched, and the
    languages are kept when the languages variable is empty or unset. *)
Theorem initializeConfig_prefers_the_host_context
    (trim : string -> string) (env : ConfigInit.ImportMetaEnv)
    (ctx : Outcome ConfigInit.CustomAppContext) (cfg : AppConfig) :
  (forall c id,
     ctx = Returned c -> ConfigInit.isError c = false ->
     ConfigInit.contextEnvironmentId c = Some id -> id <> "" ->
     projectId (ConfigInit.initializeConfig trim env ctx cfg) = id
     /\ environmentId (ConfigInit.initializeConfig trim env ctx cfg) = id
     /\ Config.isConfigValid (ConfigInit.initializeConfig trim env ctx cfg) = true
     /\ forall client target log,
          exists log' r,
            Search.searchSpecificSlug (ConfigInit.initializeConfig trim env ctx cfg)
              client target log = (log', Returned r)
            /\ success (merged r) = true)
  /\ ((forall c, ctx = Returned c -> ConfigInit.isError c = true) ->
      projectId (ConfigInit.initializeConfig trim env ctx cfg)
        = ConfigInit.getEnvVar env "VITE_KONTENT_PROJECT_ID"
      /\ environmentId (ConfigInit.initializeConfig trim env ctx cfg)
        = ConfigInit.getEnvVar env "VITE_KONTENT_ENVIRONMENT_ID"
      /\ (Config.isConfigValid (ConfigInit.initializeConfig trim env ctx cfg) = true <->
          ConfigInit.getEnvVar env "VITE_KONTENT_PROJECT_ID" <> ""))
  /\ deliveryApiKey (ConfigInit.initializeConfig trim env ctx cfg) = deliveryApiKey cfg
  /\ managementApiKey (ConfigInit.initializeConfig trim env ctx cfg) = managementApiKey cfg
  /\ (ConfigInit.getEnvVar env "VITE_KONTENT_LANGUAGES" = "" ->
      languages (ConfigInit.initializeConfig trim env ctx cfg) = languages cfg).
Proof.
  split; [|split; [|split; [|split]]].
  - intros c id -> Herr Hid Hne.
    assert (E : ConfigInit.environmentIdOf (Returned c) = Some id).
    { unfold ConfigInit.environmentIdOf. rewrite Herr, Hid. simpl.
      apply truthy_nonempty in Hne. now rewrite Hne. }
    assert (Hp : projectId (ConfigInit.initializeConfig trim env (Returned c) cfg) = id)
      by (unfold ConfigInit.initializeConfig; now rewrite E).
    assert (He : environmentId (ConfigInit.initializeConfig trim env (Returned c) cfg) = id)
      by (unfold ConfigInit.initializeConfig; now rewrite E).
    assert (Hvalid : Config.isConfigValid
                       (ConfigInit.initializeConfig trim env (Returned c) cfg) = true)
      by (unfold Config.isConfigValid; rewrite Hp; now apply truthy_nonempty).
    split; [exact Hp|]. split; [exact He|]. split; [exact Hvalid|].
    intros client target log.
    destruct (searchSpecificSlug_outcome
                (ConfigInit.initializeConfig trim env (Returned c) cfg) client target log)
      as (log' & r & H & Hs & _).
    exists log', r. split; [exact H|]. now rewrite Hs.
  - intros Herr.
    assert (E : ConfigInit.environmentIdOf ctx = None).
    { destruct ctx as [c|e]; [|reflexivity]. unfold ConfigInit.environmentIdOf.
      now rewrite (Herr c eq_refl). }
    unfold Config.isConfigValid, ConfigInit.initializeConfig. rewrite E. cbv zeta.
    cbn [projectId environmentId]. rewrite !orDefault_empty.
    split; [reflexivity|]. split; [reflexivity|]. apply truthy_nonempty.
  - unfold ConfigInit.initializeConfig. now destruct (ConfigInit.environmentIdOf ctx).
  - unfold ConfigInit.initializeConfig. now destruct (ConfigInit.environmentIdOf ctx).
  - intros E. unfold ConfigInit.initializeConfig. rewrite E.
    now destruct (ConfigInit.environmentIdOf ctx).
Qed.

Lemma initializeConfig_prefers_the_host_context_witness :
  projectId (ConfigInit.initializeConfig trimSpaces localEnv hostContext ConfigInit.appConfig)
    = "env-host"
  /\ environmentId
       (ConfigInit.initializeConfig trimSpaces localEnv hostContext ConfigInit.appConfig)
     = "env-host"
  /\ Config.isConfigValid
       (ConfigInit.initializeConfig trimSpaces localEnv hostContext ConfigInit.appConfig) = true
  /\ forall client target log,
       exists log' r,
         Search.searchSpecificSlug
           (ConfigInit.initializeConfig trimSpaces localEnv hostContext ConfigInit.appConfig)
           client target log = (log', Returned r)
         /\ success (merged r) = true.
Proof.
  apply (proj1 (initializeConfig_prefers_the_host_context trimSpaces localEnv hostContext
                  ConfigInit.appConfig)
               {| ConfigInit.isError := false;
                  ConfigInit.contextEnvironmentId := Some "env-host" |} "env-host").
  - reflexivity.
  - reflexivity.
  - reflexivity.
  - discriminate.
Defined.

(** Without a host context the variables decide; the empty pieces of the
    languages variable are kept. *)
Example initializeConfig_from_variables :
  ConfigInit.initializeConfig trimSpaces localEnv (Thrown "not in an iframe") ConfigInit.appConfig =
  {| projectId := "env-project"; environmentId := ""; deliveryApiKey := "";
     managementApiKey := ""; languages := ["en"; "de"; ""; "zh"]; defaultLanguage := "en" |}.
Proof. reflexivity. Qed.

(** ** The language settings across the life of the application *)

Section AppFacts.

Variable trim : string -> string.

Lemma handle_settled (st : App.State) (ev : App.Event) :
  settled st -> settled (App.handle trim st ev).
Proof.
  intros (Hd & Hm & Hl). destruct ev as [env ctx|env ctx|l d|]; simpl.
  - unfold App.initializeConfig, settled. simpl. repeat split; try assumption.
    intros Hflag. rewrite Hflag. simpl. now apply Hl.
  - unfold App.handleConfigClick, App.hasUserConfiguredLanguages.
    destruct (App.userHasConfiguredLanguages st) eqn:Hflag; simpl.
    + split; [exact Hd|]. split; [exact Hm|]. intros _. now apply Hl.
    + unfold App.initializeConfig, settled. simpl. rewrite Hflag.
      repeat split; try assumption. discriminate.
  - unfold App.applyLanguages, App.setUserConfiguredLanguages, settled. simpl.
    repeat split; try assumption. intros _.
    destruct (option_map trim l) as [value|]; [|constructor].
    destruct (JS.truthy value); [|constructor].
    apply Forall_forall. intros x Hx. now apply filter_In in Hx.
  - unfold App.resetLanguages, settled. simpl. repeat split; try assumption.
    intros _. constructor.
Qed.

Lemma run_settled (events : list App.Event) :
  forall st, settled st -> settled (App.run trim events st).
Proof.
  unfold App.run. induction events as [|ev events IH]; intros st H; simpl; [exact H|].
  apply IH. now apply handle_settled.
Qed.

End AppFacts.

(** X21.  Whatever sequence of starts, configuration clicks, applied and
    reset language settings the application goes through, the delivery and
    management API keys stay empty, and once the user has applied language
    settings every language a detection run searches by default is
    non-empty. *)
Theorem applied_languages_are_never_blank (trim : string -> string) (events : list App.Event) :
  deliveryApiKey (App.config (App.run trim events App.initialState)) = ""
  /\ managementApiKey (App.config (App.run trim events App.initialState)) = ""
  /\ (App.userHasConfiguredLanguages (App.run trim events App.initialState) = true ->
      Forall (fun l => l <> "")
             (Config.getConfiguredLanguages
                (App.config (App.run trim events App.initialState)))).
Proof.
  destruct (run_settled trim events App.initialState) as (Hd & Hm & Hl).
  { repeat split; try reflexivity. discriminate. }
  split; [exact Hd|]. split; [exact Hm|].
  intros Hflag. specialize (Hl Hflag). unfold Config.getConfiguredLanguages.
  destruct (languages (App.config (App.run trim events App.initialState))) as [|l ls] eqn:E;
    simpl.
  - constructor; [|constructor]. apply orDefault_nonempty. discriminate.
  - apply Forall_forall. intros x Hx. apply truthy_nonempty.
    rewrite Forall_forall in Hl. now apply Hl.
Qed.

Lemma applied_languages_are_never_blank_witness :
  Forall (fun l => l <> "")
    (Config.getConfiguredLanguages
       (App.config
          (App.run trimSpaces
             [App.Started localEnv hostContext;
              App.LanguagesApplied (Some " es, ,fr,") None;
              App.ConfigClicked localEnv hostContext]
             App.initialState))).
Proof.
  apply (proj2 (proj2 (applied_languages_are_never_blank trimSpaces
                         [App.Started localEnv hostContext;
                          App.LanguagesApplied (Some " es, ,fr,") None;
                          App.ConfigClicked localEnv hostContext]))).
  reflexivity.
Defined.

(** X22.  Once the user has applied language settings, later starts and
    configuration clicks leave the languages, the default language and the
    flag as they are, whatever the environment variables and the host context
    say. *)
Theorem applied_languages_survive_initialisation
    (trim : string -> string) (events : list App.Event) (st : App.State) :
  App.userHasConfiguredLanguages st = true ->
  Forall (fun ev => match ev with
                    | App.Started _ _ | App.ConfigClicked _ _ => True
                    | _ => False
                    end) events ->
  languages (App.config (App.run trim events st)) = languages (App.config st)
  /\ defaultLanguage (App.config (App.run trim events st)) = defaultLanguage (App.config st)
  /\ App.userHasConfiguredLanguages (App.run trim events st) = true.
Proof.
  unfold App.run. revert st.
  induction events as [|ev events IH]; intros st Hflag Hev; simpl; [auto|].
  inversion Hev as [|? ? Hhead Htail]; subst.
  destruct ev as [env ctx|env ctx|l d|]; try contradiction; simpl.
  - destruct (IH (App.initializeConfig trim env ctx st)) as (Hl & Hd & Hf);
      [reflexivity + exact Hflag | exact Htail |].
    rewrite Hl, Hd, Hf. unfold App.initializeConfig. simpl. rewrite Hflag. simpl. auto.
  - unfold App.handleConfigClick, App.hasUserConfiguredLanguages. rewrite Hflag. simpl.
    now apply IH.
Qed.

Lemma applied_languages_survive_initialisation_witness :
  languages
    (App.config
       (App.run trimSpaces [App.ConfigClicked localEnv hostContext; App.Started localEnv hostContext]
          (App.applyLanguages trimSpaces (Some "es,fr") (Some "es") App.initialState)))
  = languages (App.config (App.applyLanguages trimSpaces (Some "es,fr") (Some "es")
                             App.initialState))
  /\ defaultLanguage
       (App.config
          (App.run trimSpaces
             [App.ConfigClicked localEnv hostContext; App.Started localEnv hostContext]
             (App.applyLanguages trimSpaces (Some "es,fr") (Some "es") App.initialState)))
     = defaultLanguage (App.config (App.applyLanguages trimSpaces (Some "es,fr") (Some "es")
                                      App.initialState))
  /\ App.userHasConfiguredLanguages
       (App.run trimSpaces
          [App.ConfigClicked localEnv hostContext; App.Started localEnv hostContext]
          (App.applyLanguages trimSpaces (Some "es,fr") (Some "es") App.initialState)) = true.
Proof.
  apply (applied_languages_survive_initialisation trimSpaces
           [App.ConfigClicked localEnv hostContext; App.Started localEnv hostContext]
           (App.applyLanguages trimSpaces (Some "es,fr") (Some "es") App.initialState)).
  - reflexivity.
  - repeat constructor.
Defined.

(** ** The slug index on fetched items *)

Lemma index_conserves_fetched_items_witness :
  forallb Api.hasSlug
    [page "A" "article_a" "en" (Some "contact") None;
     page "B" "article_b" "en" None (Some "contact")] = true
  /\ totalRecords
       (Search.buildSlugMap
          [page "A" "article_a" "en" (Some "contact") None;
           page "B" "article_b" "en" None (Some "contact")]) =
     List.length
       [page "A" "article_a" "en" (Some "contact") None;
        page "B" "article_b" "en" None (Some "contact")]
  /\ Permutation
       (allRecords
          (Search.buildSlugMap
             [page "A" "article_a" "en" (Some "contact") None;
              page "B" "article_b" "en" None (Some "contact")]))
       (map Search.slugItemOf
          [page "A" "article_a" "en" (Some "contact") None;
           page "B" "article_b" "en" None (Some "contact")])
  /\ NoDup
       (map fst
          (Search.buildSlugMap
             [page "A" "article_a" "en" (Some "contact") None;
              page "B" "article_b" "en" None (Some "contact")]))
  /\ forall s records,
       In (s, records)
          (Search.buildSlugMap
             [page "A" "article_a" "en" (Some "contact") None;
              page "B" "article_b" "en" None (Some "contact")]) ->
       records <> []
       /\ records =
          map Search.slugItemOf
            (filter (fun it => String.eqb (slugKey it) s)
               [page "A" "article_a" "en" (Some "contact") None;
                page "B" "article_b" "en" None (Some "contact")]).
Proof.
  exact (index_conserves_fetched_items exampleConfig threePagesClient (Some ["en"]) []
           _ _ eq_refl).
Defined.

(** ** Failures of the strategies, request by request *)

Lemma contributions_app (client : Client) (qs qs' : list Query) :
  forall n,
    contributions client n (qs ++ qs') =
    contributions client n qs ++ contributions client (n + List.length qs) qs'.
Proof.
  induction qs as [|q qs IH]; intros n; simpl.
  - now rewrite Nat.add_0_r.
  - rewrite IH, <- app_assoc. do 3 f_equal. lia.
Qed.

(** A rejected lookup adds nothing to what the lookups before and after it
    contribute. *)
Lemma contributions_skip_rejected (client : Client) (before : list Query) (q : Query)
    (after : list Query) (n : nat) (e : string) :
  client (n + List.length before) q = Thrown e ->
  contributions client n (before ++ q :: after) =
  contributions client n before
  ++ contributions client (n + List.length before + 1) after.
Proof.
  intros H. rewrite contributions_app. simpl. rewrite H. simpl.
  do 2 f_equal. lia.
Qed.

Lemma contributions_all_rejected (client : Client) (qs : list Query) :
  forall n,
    (forall i q, In q qs -> exists e, client i q = Thrown e) ->
    contributions client n qs = [].
Proof.
  induction qs as [|q qs IH]; intros n H; simpl; [reflexivity|].
  destruct (H n q) as [e ->]; [now left|]. simpl.
  apply IH. intros i q' Hq'. apply H. now right.
Qed.

(** The all-items loop completes when every request resolves. *)
Lemma forOf_fetch_resolved {X} (client : Client) (keep : string -> list PageItem -> list X)
    (langs : list string) :
  forall (acc : list X) (log : list Query),
    (forall i l, nth_error langs i = Some l ->
       exists found, client (List.length log + i) (pagesIn l) = Returned found) ->
    exists allItems,
      forOf langs (fetchPages client keep) acc log =
      (log ++ map pagesIn langs, Returned allItems).
Proof.
  induction langs as [|l langs IH]; intros acc log H; simpl.
  - exists acc. unfold ret. now rewrite app_nil_r.
  - unfold fetchPages at 1. unfold bind at 1. unfold bind at 1. unfold toAllPromise.
    destruct (H 0 l eq_refl) as [found Hfound].
    rewrite Nat.add_0_r in Hfound. unfold pagesIn in Hfound. rewrite Hfound.
    unfold ret at 1.
    destruct (IH (acc ++ keep l found) (log ++ [ItemsAll l ["url_slug"; "slug"]]))
      as [allItems Hall].
    + intros i l' Hi. rewrite length_app. simpl.
      replace (List.length log + 1 + i) with (List.length log + S i) by lia.
      now apply H.
    + exists allItems. rewrite Hall, <- app_assoc. reflexivity.
Qed.

Section AllItemsStrategy.

Variable cfg : AppConfig.
Variable client : Client.
Hypothesis valid : Config.isConfigValid cfg = true.

(** What the all-items strategy returns when one of its requests is
    rejected after the earlier ones resolved. *)
Lemma searchAllItemsDeliveryApi_rejected_at (target : string) (log : list Query)
    (pre : list string) (lang : string) (post : list string) (e : string) :
  Api.LANGUAGE_CODES = pre ++ lang :: post ->
  (forall i l, nth_error pre i = Some l ->
     exists found, client (List.length log + i) (pagesIn l) = Returned found) ->
  client (List.length log + List.length pre) (pagesIn lang) = Thrown e ->
  Api.searchAllItemsDeliveryApi cfg client target log =
  (log ++ map pagesIn pre ++ [pagesIn lang],
   Returned {| success := false; items := []; error := Some e;
               method := "delivery-sdk-all"; totalItems := None; exactMatches := None;
               allSlugsCount := None; note := None |}).
Proof.
  intros Hcodes Hpre Hlang.
  unfold Api.searchAllItemsDeliveryApi. rewrite valid. cbn [negb]. rewrite Hcodes.
  unfold tryCatch. unfold bind at 1. cbv beta.
  pose proof (forOf_fetch_rejected client
                (fun lang response =>
                   map (fun item => Api.formatSDKItem item lang) (filter Api.hasSlug response))
                pre lang post e [] log Hpre Hlang) as H.
  unfold fetchPages in H. rewrite H. reflexivity.
Qed.

(** What it returns when all its requests resolve. *)
Lemma searchAllItemsDeliveryApi_resolved (target : string) (log : list Query) :
  (forall i l, nth_error Api.LANGUAGE_CODES i = Some l ->
     exists found, client (List.length log + i) (pagesIn l) = Returned found) ->
  exists r,
    Api.searchAllItemsDeliveryApi cfg client target log =
    (log ++ map pagesIn Api.LANGUAGE_CODES, Returned r)
    /\ success r = true /\ error r = None.
Proof.
  intros Hall.
  destruct (forOf_fetch_resolved client
              (fun lang response =>
                 map (fun item => Api.formatSDKItem item lang) (filter Api.hasSlug response))
              Api.LANGUAGE_CODES [] log Hall) as [allItems H].
  unfold Api.searchAllItemsDeliveryApi. rewrite valid. cbn [negb].
  unfold tryCatch. unfold bind at 1. cbv beta.
  unfold fetchPages in H. rewrite H. unfold ret.
  eexists. split; [reflexivity|]. split; reflexivity.
Qed.

End AllItemsStrategy.

(** C6.  Under a valid configuration [searchSpecificSlug] runs both delivery
    strategies whatever happens in them, merges what they returned and
    succeeds.
    - The delivery strategy issues its six lookups and succeeds; a rejected
      lookup contributes nothing while the lookups before and after it still
      contribute, and when all are rejected the strategy contributes the empty
      list and the merged list is that of the all-items strategy.
    - When a page request of the all-items strategy is rejected, that strategy
      stops there and returns a failure result with the message of the
      rejection and no item; the merged list is then exactly the list of the
      delivery strategy.  When all its requests resolve it succeeds.
    - Every record of the delivery strategy is in the merged list, and every
      record of the all-items strategy is represented there by the first
      record with its codename and language. *)
Theorem failing_strategy_is_isolated
    (cfg : AppConfig) (client : Client) (target : string) (log : list Query) :
  Config.isConfigValid cfg = true ->
  exists log2 viaDelivery viaAllItems r,
    Api.searchWithDeliveryApi cfg client target log =
      (log ++ deliveryQueries target, Returned viaDelivery)
    /\ Api.searchAllItemsDeliveryApi cfg client target (log ++ deliveryQueries target) =
         (log2, Returned viaAllItems)
    /\ Search.searchSpecificSlug cfg client target log = (log2, Returned r)
    /\ deliveryApi r = Some viaDelivery
    /\ deliveryApiAllItems r = Some viaAllItems
    /\ success (merged r) = true
    /\ items (merged r) =
         Api.removeDuplicateItems ci_codename ci_language
           (items viaDelivery ++ items viaAllItems)
    /\ items viaDelivery =
         Api.removeDuplicateItems ci_codename ci_language
           (contributions client (List.length log) (deliveryQueries target))
    /\ (success viaDelivery = false -> items viaDelivery = [])
    /\ (success viaAllItems = false ->
        items viaAllItems = [] /\ items (merged r) = items viaDelivery)
    /\ (forall x, In x (items viaDelivery) -> In x (items (merged r)))
    /\ (forall x, In x (items viaAllItems) ->
        exists y, In y (items (merged r)) /\ keyOf y = keyOf x)
    /\ success viaDelivery = true
    /\ (forall before q after e,
          deliveryQueries target = before ++ q :: after ->
          client (List.length log + List.length before) q = Thrown e ->
          items viaDelivery =
          Api.removeDuplicateItems ci_codename ci_language
            (contributions client (List.length log) before
             ++ contributions client (List.length log + List.length before + 1) after))
    /\ ((forall i q, In q (deliveryQueries target) -> exists e, client i q = Thrown e) ->
        items viaDelivery = []
        /\ items (merged r) =
           Api.removeDuplicateItems ci_codename ci_language (items viaAllItems))
    /\ (forall pre lang post e,
          Api.LANGUAGE_CODES = pre ++ lang :: post ->
          (forall i l, nth_error pre i = Some l ->
             exists found,
               client (List.length (log ++ deliveryQueries target) + i) (pagesIn l)
               = Returned found) ->
          client (List.length (log ++ deliveryQueries target) + List.length pre)
                 (pagesIn lang) = Thrown e ->
          success viaAllItems = false
          /\ items viaAllItems = []
          /\ error viaAllItems = Some e
          /\ log2 = (log ++ deliveryQueries target) ++ map pagesIn pre ++ [pagesIn lang]
          /\ items (merged r) = items viaDelivery)
    /\ ((forall i l, nth_error Api.LANGUAGE_CODES i = Some l ->
           exists found,
             client (List.length (log ++ deliveryQueries target) + i) (pagesIn l)
             = Returned found) ->
        success viaAllItems = true
        /\ log2 = (log ++ deliveryQueries target) ++ map pagesIn Api.LANGUAGE_CODES).
Proof.
  intros valid.
  pose proof (searchWithDeliveryApi_run cfg client valid target log) as Hd. cbv zeta in Hd.
  destruct (searchAllItemsDeliveryApi_returns cfg client valid target
              (log ++ deliveryQueries target)) as (log2 & a & Ha & Hfail & _).
  pose proof (searchSpecificSlug_run cfg client valid target log _ log2 _ a Hd Ha) as Hs.
  cbv zeta in Hs.
  set (found := Api.removeDuplicateItems ci_codename ci_language
                  (contributions client (List.length log) (deliveryQueries target))) in *.
  set (d := {| success := true; items := found; error := None; method := "delivery-sdk";
               totalItems := Some (List.length found); exactMatches := None;
               allSlugsCount := None; note := None |}) in *.
  assert (Hm : Search.itemsOrEmpty
                 (if JS.truthy (managementApiKey cfg) then Some managementPlaceholder else None)
               = []) by (destruct (JS.truthy (managementApiKey cfg)); reflexivity).
  rewrite Hm, app_nil_r in Hs.
  set (mergedItems := Api.removeDuplicateItems ci_codename ci_language (items d ++ items a)) in *.
  assert (HdNoDup : NoDup (map keyOf (items d)))
    by apply (removeDuplicateItems_NoDup ci_codename ci_language).
  assert (Hsolo : items a = [] -> mergedItems = items d).
  { intros Hnil. unfold mergedItems. rewrite Hnil, app_nil_r.
    apply (removeDuplicateItems_idempotent ci_codename ci_language). }
  eexists log2, d, a, _. split; [exact Hd|]. split; [exact Ha|]. split; [exact Hs|].
  cbn [deliveryApi deliveryApiAllItems merged success items].
  split; [reflexivity|]. split; [reflexivity|]. split; [reflexivity|].
  split; [reflexivity|]. split; [reflexivity|]. split; [discriminate|].
  split; [|split; [|split; [|split; [|split; [|split; [|split]]]]]].
  - intros Hf. destruct (Hfail Hf) as [Hnil _]. split; [exact Hnil | now apply Hsolo].
  - intros x Hx.
    destruct (removeDuplicateItems_first ci_codename ci_language (items d ++ items a) x)
      as (first & Hfind & Hfilter); [apply in_or_app; now left|].
    rewrite (find_app_Some _ _ _ x (find_own_key (items d) x HdNoDup Hx)) in Hfind.
    injection Hfind as <-.
    assert (Hin : In x (filter (Api.sameKey ci_codename ci_language x) mergedItems))
      by (unfold mergedItems; rewrite Hfilter; now left).
    now apply filter_In in Hin.
  - intros x Hx.
    destruct (removeDuplicateItems_first ci_codename ci_language (items d ++ items a) x)
      as (first & Hfind & Hfilter); [apply in_or_app; now right|].
    assert (Hin : In first (filter (Api.sameKey ci_codename ci_language x) mergedItems))
      by (unfold mergedItems; rewrite Hfilter; now left).
    apply filter_In in Hin. destruct Hin as [Hin Hsame].
    exists first. split; [exact Hin|].
    now apply (sameKey_iff ci_codename ci_language) in Hsame.
  - reflexivity.
  - intros before q after e Hsplit Hq. change (items d) with found.
    unfold found. rewrite Hsplit.
    now rewrite (contributions_skip_rejected client before q after _ e Hq).
  - intros Hall.
    assert (Hnone : found = []).
    { unfold found. now rewrite (contributions_all_rejected client _ _ Hall). }
    change (items d) with found. split; [exact Hnone|].
    unfold mergedItems. change (items d) with found. now rewrite Hnone.
  - intros pre lang post e Hcodes Hpre Hlang.
    pose proof (searchAllItemsDeliveryApi_rejected_at cfg client valid target
                  (log ++ deliveryQueries target) pre lang post e Hcodes Hpre Hlang) as Hrej.
    rewrite Ha in Hrej. injection Hrej as Hlog Hres. subst a. simpl.
    repeat split; try reflexivity; [exact Hlog | now apply Hsolo].
  - intros Hall.
    destruct (searchAllItemsDeliveryApi_resolved cfg client valid target
                (log ++ deliveryQueries target) Hall) as (a' & Ha' & Hsucc & _).
    rewrite Ha in Ha'. injection Ha' as Hlog Hres. subst a'. split; assumption.
Qed.

Lemma failing_strategy_is_isolated_witness :
  exists log2 viaDelivery viaAllItems r,
    Api.searchWithDeliveryApi exampleConfig flakyClient "contact" [] =
      ([] ++ deliveryQueries "contact", Returned viaDelivery)
    /\ Api.searchAllItemsDeliveryApi exampleConfig flakyClient "contact"
         ([] ++ deliveryQueries "contact") = (log2, Returned viaAllItems)
    /\ Search.searchSpecificSlug exampleConfig flakyClient "contact" [] = (log2, Returned r)
    /\ deliveryApi r = Some viaDelivery
    /\ deliveryApiAllItems r = Some viaAllItems
    /\ success (merged r) = true
    /\ items (merged r) =
         Api.removeDuplicateItems ci_codename ci_language
           (items viaDelivery ++ items viaAllItems)
    /\ items viaDelivery =
         Api.removeDuplicateItems ci_codename ci_language
           (contributions flakyClient (List.length (@nil Query)) (deliveryQueries "contact"))
    /\ (success viaDelivery = false -> items viaDelivery = [])
    /\ (success viaAllItems = false ->
        items viaAllItems = [] /\ items (merged r) = items viaDelivery)
    /\ (forall x, In x (items viaDelivery) -> In x (items (merged r)))
    /\ (forall x, In x (items viaAllItems) ->
        exists y, In y (items (merged r)) /\ keyOf y = keyOf x)
    /\ success viaDelivery = true
    /\ (forall before q after e,
          deliveryQueries "contact" = before ++ q :: after ->
          flakyClient (List.length (@nil Query) + List.length before) q = Thrown e ->
          items viaDelivery =
          Api.removeDuplicateItems ci_codename ci_language
            (contributions flakyClient (List.length (@nil Query)) before
             ++ contributions flakyClient
                  (List.length (@nil Query) + List.length before + 1) after))
    /\ ((forall i q, In q (deliveryQueries "contact") ->
           exists e, flakyClient i q = Thrown e) ->
        items viaDelivery = []
        /\ items (merged r) =
           Api.removeDuplicateItems ci_codename ci_language (items viaAllItems))
    /\ (forall pre lang post e,
          Api.LANGUAGE_CODES = pre ++ lang :: post ->
          (forall i l, nth_error pre i = Some l ->
             exists found,
               flakyClient (List.length ([] ++ deliveryQueries "contact") + i) (pagesIn l)
               = Returned found) ->
          flakyClient (List.length ([] ++ deliveryQueries "contact") + List.length pre)
                      (pagesIn lang) = Thrown e ->
          success viaAllItems = false
          /\ items viaAllItems = []
          /\ error viaAllItems = Some e
          /\ log2 = ([] ++ deliveryQueries "contact") ++ map pagesIn pre ++ [pagesIn lang]
          /\ items (merged r) = items viaDelivery)
    /\ ((forall i l, nth_error Api.LANGUAGE_CODES i = Some l ->
           exists found,
             flakyClient (List.length ([] ++ deliveryQueries "contact") + i) (pagesIn l)
             = Returned found) ->
        success viaAllItems = true
        /\ log2 = ([] ++ deliveryQueries "contact") ++ map pagesIn Api.LANGUAGE_CODES).
Proof.
  apply (failing_strategy_is_isolated exampleConfig flakyClient "contact" []).
  reflexivity.
Defined.

(** C7.  Under a valid configuration, when every request for a searched
    language resolves to no item, the run issues one request per language and
    returns the empty list of duplicates with both counts at zero and no
    error.  The error field is what tells this result from a failure:
    - every run returns a result, and a result with the error field set has
      the empty list of duplicates, as the empty success has;
    - a run under an invalid configuration sets the error field, and issues
      no request;
    - a run whose fetch is rejected sets the error field to the message of
      the rejection, be the rejection stated on the client or on the fetch;
    - a run whose grouping step throws sets the error field;
    - every other run returns the groups found and both counts, with no
      error. *)
Theorem empty_fetch_is_a_success
    (cfg : AppConfig) (client : Client) (langs : option (list string)) (log : list Query) :
  Config.isConfigValid cfg = true ->
  (forall n lang, In lang (languagesSearched cfg langs) ->
                  client n (pagesIn lang) = Returned []) ->
  Search.findDuplicateSlugs cfg client langs log =
    (log ++ map pagesIn (languagesSearched cfg langs),
     Returned {| duplicates := []; dr_totalItems := Some 0; uniqueSlugs := Some 0;
                 dr_error := None |})
  /\ (forall (cfg' : AppConfig) (client' : Client) (langs' : option (list string))
             (log0 log' : list Query) (r : DuplicateResult),
        Search.findDuplicateSlugs cfg' client' langs' log0 = (log', Returned r) ->
        dr_error r <> None -> duplicates r = [])
  /\ (forall (cfg' : AppConfig) (client' : Client) (langs' : option (list string))
             (log0 : list Query),
        exists log' r, Search.findDuplicateSlugs cfg' client' langs' log0 = (log', Returned r))
  /\ (forall (cfg' : AppConfig) (client' : Client) (langs' : option (list string))
             (log0 : list Query),
        Config.isConfigValid cfg' = false ->
        Search.findDuplicateSlugs cfg' client' langs' log0 =
        (log0, Returned {| duplicates := []; dr_totalItems := None; uniqueSlugs := None;
                           dr_error := Some Search.missingProjectId |}))
  /\ (forall (cfg' : AppConfig) (client' : Client) (langs' : option (list string))
             (log0 : list Query) (pre : list string) (lang : string) (post : list string)
             (e : string),
        Config.isConfigValid cfg' = true ->
        languagesSearched cfg' langs' = pre ++ lang :: post ->
        (forall i l, nth_error pre i = Some l ->
           exists found, client' (List.length log0 + i) (pagesIn l) = Returned found) ->
        client' (List.length log0 + List.length pre) (pagesIn lang) = Thrown e ->
        Search.findDuplicateSlugs cfg' client' langs' log0 =
        (log0 ++ map pagesIn pre ++ [pagesIn lang],
         Returned {| duplicates := []; dr_totalItems := None; uniqueSlugs := None;
                     dr_error := Some (String.append "Unexpected error: " e) |}))
  /\ (forall (cfg' : AppConfig) (client' : Client) (langs' : option (list string))
             (log0 log1 : list Query) (e : string),
        Config.isConfigValid cfg' = true ->
        Search.fetchAllPageItemsWithSlugs cfg' client'
          (Some (languagesSearched cfg' langs')) log0 = (log1, Thrown e) ->
        Search.findDuplicateSlugs cfg' client' langs' log0 =
        (log1,
         Returned {| duplicates := []; dr_totalItems := None; uniqueSlugs := None;
                     dr_error := Some (String.append "Unexpected error: " e) |}))
  /\ (forall (cfg' : AppConfig) (client' : Client) (langs' : option (list string))
             (log0 log1 : list Query) (allItems : list PageItem) (e : string),
        Config.isConfigValid cfg' = true ->
        Search.fetchAllPageItemsWithSlugs cfg' client'
          (Some (languagesSearched cfg' langs')) log0 = (log1, Returned allItems) ->
        Search.findTrueDuplicates (Search.buildSlugMap allItems) = Thrown e ->
        Search.findDuplicateSlugs cfg' client' langs' log0 =
        (log1,
         Returned {| duplicates := []; dr_totalItems := None; uniqueSlugs := None;
                     dr_error := Some (String.append "Unexpected error: " e) |}))
  /\ (forall (cfg' : AppConfig) (client' : Client) (langs' : option (list string))
             (log0 log1 : list Query) (allItems : list PageItem)
             (groups : list DuplicateGroup),
        Config.isConfigValid cfg' = true ->
        Search.fetchAllPageItemsWithSlugs cfg' client'
          (Some (languagesSearched cfg' langs')) log0 = (log1, Returned allItems) ->
        Search.findTrueDuplicates (Search.buildSlugMap allItems) = Returned groups ->
        Search.findDuplicateSlugs cfg' client' langs' log0 =
        (log1,
         Returned {| duplicates := groups;
                     dr_totalItems := Some (List.length allItems);
                     uniqueSlugs := Some (List.length (Search.buildSlugMap allItems));
                     dr_error := None |})).
Proof.
  intros valid Hempty. repeat apply conj.
  - unfold Search.findDuplicateSlugs. rewrite valid. cbn [negb].
    unfold tryCatch. unfold bind at 1. unfold Search.fetchAllPageItemsWithSlugs.
    fold (languagesSearched cfg langs).
    rewrite (forOf_no_items client _ [] log Hempty). reflexivity.
  - intros cfg' client' langs' log0 log' r H Herr.
    destruct (findDuplicateSlugs_outcome cfg' client' langs' log0) as (log2 & r2 & H2 & Hfail).
    assert (r2 = r) by congruence. subst r2.
    destruct (Hfail Herr) as [message ->]. reflexivity.
  - intros cfg' client' langs' log0.
    destruct (findDuplicateSlugs_outcome cfg' client' langs' log0) as (log2 & r2 & H2 & _).
    now exists log2, r2.
  - intros cfg' client' langs' log0 invalid.
    unfold Search.findDuplicateSlugs. rewrite invalid. reflexivity.
  - intros cfg' client' langs' log0 pre lang post e valid' Hlangs Hpre Hlang.
    unfold Search.findDuplicateSlugs. rewrite valid'. cbn [negb].
    unfold tryCatch. unfold bind at 1. unfold Search.fetchAllPageItemsWithSlugs.
    fold (languagesSearched cfg' langs'). rewrite Hlangs.
    pose proof (forOf_fetch_rejected client' (fun _ response => filter Api.hasSlug response)
                  pre lang post e [] log0 Hpre Hlang) as H.
    unfold fetchPages in H. rewrite H. reflexivity.
  - intros cfg' client' langs' log0 log1 e valid' Hfetch.
    unfold Search.findDuplicateSlugs. rewrite valid'. cbn [negb].
    unfold tryCatch. unfold bind at 1. fold (languagesSearched cfg' langs').
    rewrite Hfetch. reflexivity.
  - intros cfg' client' langs' log0 log1 allItems e valid' Hfetch Hgroup.
    unfold Search.findDuplicateSlugs. rewrite valid'. cbn [negb].
    unfold tryCatch. unfold bind at 1. fold (languagesSearched cfg' langs').
    rewrite Hfetch. unfold bind, liftOutcome. rewrite Hgroup. reflexivity.
  - intros cfg' client' langs' log0 log1 allItems groups valid' Hfetch Hgroup.
    unfold Search.findDuplicateSlugs. rewrite valid'. cbn [negb].
    unfold tryCatch. unfold bind at 1. fold (languagesSearched cfg' langs').
    rewrite Hfetch. unfold bind, liftOutcome. rewrite Hgroup. reflexivity.
Qed.

Lemma empty_fetch_is_a_success_witness :
  Search.findDuplicateSlugs exampleConfig emptyClient None [] =
    ([] ++ map pagesIn (languagesSearched exampleConfig None),
     Returned {| duplicates := []; dr_totalItems := Some 0; uniqueSlugs := Some 0;
                 dr_error := None |})
  /\ (forall (cfg' : AppConfig) (client' : Client) (langs' : option (list string))
             (log0 log' : list Query) (r : DuplicateResult),
        Search.findDuplicateSlugs cfg' client' langs' log0 = (log', Returned r) ->
        dr_error r <> None -> duplicates r = [])
  /\ (forall (cfg' : AppConfig) (client' : Client) (langs' : option (list string))
             (log0 : list Query),
        exists log' r, Search.findDuplicateSlugs cfg' client' langs' log0 = (log', Returned r))
  /\ (forall (cfg' : AppConfig) (client' : Client) (langs' : option (list string))
             (log0 : list Query),
        Config.isConfigValid cfg' = false ->
        Search.findDuplicateSlugs cfg' client' langs' log0 =
        (log0, Returned {| duplicates := []; dr_totalItems := None; uniqueSlugs := None;
                           dr_error := Some Search.missingProjectId |}))
  /\ (forall (cfg' : AppConfig) (client' : Client) (langs' : option (list string))
             (log0 : list Query) (pre : list string) (lang : string) (post : list string)
             (e : string),
        Config.isConfigValid cfg' = true ->
        languagesSearched cfg' langs' = pre ++ lang :: post ->
        (forall i l, nth_error pre i = Some l ->
           exists found, client' (List.length log0 + i) (pagesIn l) = Returned found) ->
        client' (List.length log0 + List.length pre) (pagesIn lang) = Thrown e ->
        Search.findDuplicateSlugs cfg' client' langs' log0 =
        (log0 ++ map pagesIn pre ++ [pagesIn lang],
         Returned {| duplicates := []; dr_totalItems := None; uniqueSlugs := None;
                     dr_error := Some (String.append "Unexpected error: " e) |}))
  /\ (forall (cfg' : AppConfig) (client' : Client) (langs' : option (list string))
             (log0 log1 : list Query) (e : string),
        Config.isConfigValid cfg' = true ->
        Search.fetchAllPageItemsWithSlugs cfg' client'
          (Some (languagesSearched cfg' langs')) log0 = (log1, Thrown e) ->
        Search.findDuplicateSlugs cfg' client' langs' log0 =
        (log1,
         Returned {| duplicates := []; dr_totalItems := None; uniqueSlugs := None;
                     dr_error := Some (String.append "Unexpected error: " e) |}))
  /\ (forall (cfg' : AppConfig) (client' : Client) (langs' : option (list string))
             (log0 log1 : list Query) (allItems : list PageItem) (e : string),
        Config.isConfigValid cfg' = true ->
        Search.fetchAllPageItemsWithSlugs cfg' client'
          (Some (languagesSearched cfg' langs')) log0 = (log1, Returned allItems) ->
        Search.findTrueDuplicates (Search.buildSlugMap allItems) = Thrown e ->
        Search.findDuplicateSlugs cfg' client' langs' log0 =
        (log1,
         Returned {| duplicates := []; dr_totalItems := None; uniqueSlugs := None;
                     dr_error := Some (String.append "Unexpected error: " e) |}))
  /\ (forall (cfg' : AppConfig) (client' : Client) (langs' : option (list string))
             (log0 log1 : list Query) (allItems : list PageItem)
             (groups : list DuplicateGroup),
        Config.isConfigValid cfg' = true ->
        Search.fetchAllPageItemsWithSlugs cfg' client'
          (Some (languagesSearched cfg' langs')) log0 = (log1, Returned allItems) ->
        Search.findTrueDuplicates (Search.buildSlugMap allItems) = Returned groups ->
        Search.findDuplicateSlugs cfg' client' langs' log0 =
        (log1,
         Returned {| duplicates := groups;
                     dr_totalItems := Some (List.length allItems);
                     uniqueSlugs := Some (List.length (Search.buildSlugMap allItems));
                     dr_error := None |})).
Proof.
  apply (empty_fetch_is_a_success exampleConfig emptyClient None []).
  - reflexivity.
  - intros n lang _. reflexivity.
Defined.

(** X19.  The client of a search is built from the configuration by
    [createClient], out of the project identifier and the delivery key.  Two
    configurations that agree on the project identifier, the delivery key and
    the management key give the same search, whatever languages, default
    language and environment identifier they hold: the search covers the fixed
    language codes and ignores the language settings. *)
Theorem searchSpecificSlug_ignores_language_settings
    (createDeliveryClient : string -> option string -> Client)
    (cfg cfg' : AppConfig) (target : string) (log : list Query) :
  projectId cfg = projectId cfg' ->
  deliveryApiKey cfg = deliveryApiKey cfg' ->
  managementApiKey cfg = managementApiKey cfg' ->
  Search.searchSpecificSlug cfg (createClient createDeliveryClient cfg) target log =
  Search.searchSpecificSlug cfg' (createClient createDeliveryClient cfg') target log.
Proof.
  intros Hproject Hdelivery Hmanagement.
  assert (Hclient : createClient createDeliveryClient cfg
                    = createClient createDeliveryClient cfg').
  { unfold createClient. now rewrite Hproject, Hdelivery. }
  rewrite <- Hclient. generalize (createClient createDeliveryClient cfg). intros client.
  unfold Search.searchSpecificSlug, Api.searchWithDeliveryApi, Api.searchAllItemsDeliveryApi,
    Config.isConfigValid.
  rewrite Hproject, Hmanagement. reflexivity.
Qed.

Lemma searchSpecificSlug_ignores_language_settings_witness :
  Search.searchSpecificSlug exampleConfig (createClient openSdk exampleConfig) "contact" [] =
  Search.searchSpecificSlug spanishConfig (createClient openSdk spanishConfig) "contact" [].
Proof.
  apply (searchSpecificSlug_ignores_language_settings openSdk exampleConfig spanishConfig
           "contact" []); reflexivity.
Defined.

(** The delivery key does matter: with a host that serves the open
    environment only without a key, the keyed configuration finds nothing
    where the open one finds the page. *)
Example delivery_key_changes_the_search :
  projectId exampleConfig = projectId securedConfig
  /\ managementApiKey exampleConfig = managementApiKey securedConfig
  /\ languages exampleConfig = languages securedConfig
  /\ Search.searchSpecificSlug exampleConfig (createClient openSdk exampleConfig) "contact" []
     <> Search.searchSpecificSlug securedConfig (createClient openSdk securedConfig)
          "contact" [].
Proof.
  repeat split. intros H.
  apply (f_equal (fun run => match snd run with
                             | Returned r => List.length (items (merged r))
                             | Thrown _ => 0
                             end)) in H.
  vm_compute in H. discriminate.
Qed.
